(** * flix-backend: session credentials, the authorization gate and the
      GraphQL resolvers built on them

    The resolvers of [src/app/graphql/graphql.resolvers.ts] are embedded
    as state-passing functions.  A resolver that can [throw] returns an
    [Outcome]; the shared token store (refresh-token whitelist and
    access-token blacklist) and the response object are threaded
    explicitly.  The helpers the resolvers import from [#auth/auth.service]
    and [#graphql/graphql.service] are not part of the sources at hand;
    each of them is modelled from the specification and marked so. *)

From Stdlib Require Import ZArith NArith Ascii String List Bool Lia Permutation.
From stdpp Require Import base option gmap strings list pretty.
Import ListNotations.

Open Scope string_scope.
Open Scope Z_scope.

(** ** Values that cross the resolver boundary *)

(** A thrown JavaScript value.  The resolvers raise the two Apollo error
    classes; anything raised by a collaborator is a plain [Error]. *)
Inductive Exn :=
| AuthenticationError (msg : string)
| ApolloError (msg : string)
| JsError (msg : string).

Definition exn_message (e : Exn) : string :=
  match e with
  | AuthenticationError m | ApolloError m | JsError m => m
  end.

(** The result of running a piece of code that may throw. *)
Inductive Outcome (A : Type) :=
| Returned (a : A)
| Throws (e : Exn).
Arguments Returned {A} a.
Arguments Throws {A} e.

Definition returns {A} (o : Outcome A) : bool :=
  match o with Returned _ => true | Throws _ => false end.

Record ErrorItem := { message : string }.

(** The uniform envelope [{data, errors, statusCode}]. *)
Record ServiceResponse (A : Type) := {
  data : option A;
  errors : list ErrorItem;
  statusCode : Z
}.
Arguments data {A} _.
Arguments errors {A} _.
Arguments statusCode {A} _.

Record User := {
  _id : string;
  username : string;
  passwordHash : string
}.

(** [AuthStatus] of the request context: derived per request. *)
Record AuthStatus := {
  isAuthenticated : bool;
  userId : option string
}.

(** Payload carried by a signed access token. *)
Record JwtPayload := {
  jwt_userId : string;
  jwt_passwordHashFingerprint : string;
  issuedAt : Z;
  jwt_expiresAt : Z
}.

(** A whitelist record; [refreshToken] is the field the resolvers read. *)
Record RefreshTokenData := {
  refreshToken : string;
  rt_userId : string;
  rt_passwordHashFingerprint : string;
  expiresAt : Z
}.

(** ** The response object: cookies set so far, oldest first *)

Record CookieOptions := {
  maxAge : option Z;
  expires : option Z;
  httpOnly : bool;
  secure : bool;
  sameSite : string
}.

Record Cookie := {
  cookie_name : string;
  cookie_value : string;
  cookie_options : CookieOptions
}.

Definition Res := list Cookie.

(** [res.cookie(name, value, options)] *)
Definition res_cookie (name value : string) (opts : CookieOptions) (res : Res) : Res :=
  (res ++ [ {| cookie_name := name; cookie_value := value; cookie_options := opts |} ])%list.

(** The request: the parsed cookie and the authorization header, each of
    which may be missing. *)
Record Req := {
  cookies_refreshToken : option string;
  headers_authorization : option string
}.

(** [str.slice(start)] for a non-negative [start]: the string without its
    first [start] characters, empty when it is shorter. *)
Fixpoint slice (start : nat) (s : string) : string :=
  match start, s with
  | O, _ => s
  | S _, EmptyString => EmptyString
  | S n, String _ rest => slice n rest
  end.

(** ** The token store *)

Record Store := {
  whitelist : gmap string RefreshTokenData;
  blacklist : gmap string Z
}.

Definition set_whitelist (w : gmap string RefreshTokenData) (s : Store) : Store :=
  {| whitelist := w; blacklist := blacklist s |}.

Definition set_blacklist (b : gmap string Z) (s : Store) : Store :=
  {| whitelist := whitelist s; blacklist := b |}.

(** Modelled from the spec: the TokenStore operations of section 4.2 (the
    store behind [#auth/auth.service] is absent).  [whitelistAdd] is an
    upsert keyed by the token value. *)
Definition whitelistAdd (record : RefreshTokenData) (s : Store) : Store :=
  set_whitelist (<[refreshToken record := record]> (whitelist s)) s.

(** Modelled from the spec: [whitelistRemove] deletes, and does nothing
    when the token is absent. *)
Definition whitelistRemove (token : string) (s : Store) : Store :=
  set_whitelist (delete token (whitelist s)) s.

(** Modelled from the spec: [whitelistLookup]; a record whose [expiresAt]
    has passed is not reported (TTL-based expiry). *)
Definition whitelistLookup (now : Z) (token : string) (s : Store) : option RefreshTokenData :=
  match whitelist s !! token with
  | Some record => if now <? expiresAt record then Some record else None
  | None => None
  end.

(** Modelled from the spec: [whitelistReplace] is a compare-and-swap; it
    succeeds only if [oldToken] is still present, and then removes it and
    inserts the new record in one step.  [None] is [alreadyGone]. *)
Definition whitelistReplace (oldToken : string) (newRecord : RefreshTokenData)
    (s : Store) : option Store :=
  match whitelist s !! oldToken with
  | Some _ =>
      Some (set_whitelist
              (<[refreshToken newRecord := newRecord]> (delete oldToken (whitelist s))) s)
  | None => None
  end.

(** Modelled from the spec: [blacklistAdd] and [blacklistContains]; an
    expired entry does not report as present, whatever the sweep cadence. *)
Definition blacklistAdd (token : string) (expiresAt : Z) (s : Store) : Store :=
  set_blacklist (<[token := expiresAt]> (blacklist s)) s.

Definition blacklistContains (now : Z) (token : string) (s : Store) : bool :=
  match blacklist s !! token with
  | Some e => now <? e
  | None => false
  end.

(** Modelled from the spec: the store prunes entries whose [expiresAt] has
    passed (section 3); a sweep at time [now]. *)
Definition sweep (now : Z) (s : Store) : Store :=
  {| whitelist := filter (λ kv, now < expiresAt kv.2) (whitelist s);
     blacklist := filter (λ kv, now < kv.2) (blacklist s) |}.

(** ** The error taxonomy, as the messages the envelopes carry *)

(** The message [silentRefresh] returns for a rejected refresh token. *)
Definition InvalidRefreshToken : ErrorItem :=
  {| message := "Authentication Error: Invalid refresh token." |}.

(** Modelled from the spec: the [Unauthenticated] and [Unauthorized] errors
    of the gate ([#graphql/graphql.service] is absent, so is their text). *)
Definition Unauthenticated : ErrorItem := {| message := "Unauthenticated" |}.
Definition Unauthorized : ErrorItem := {| message := "Unauthorized" |}.

(** ** AuthorizationGate *)

Section Gate.
Context {W A : Type}.

(** An operation handed to the gate: it acts on the collaborators' state
    [W] and either returns an envelope or throws. *)
Definition Operation := W -> Outcome (ServiceResponse A) * W.

(** Modelled from the spec: [runIfAuthenticated] (section 4.3).  Without
    authentication the operation is not invoked; otherwise its result is
    forwarded and a thrown failure is wrapped as [statusCode: 500]. *)
Definition runIfAuthenticated (authStatus : AuthStatus) (operation : Operation)
    (w : W) : ServiceResponse A * W :=
  if isAuthenticated authStatus then
    match operation w with
    | (Returned r, w') => (r, w')
    | (Throws err, w') =>
        ({| data := None;
            errors := [ {| message := exn_message err |} ];
            statusCode := 500 |}, w')
    end
  else
    ({| data := None; errors := [Unauthenticated]; statusCode := 401 |}, w).

(** Modelled from the spec: [runIfAuthorized] (section 4.3) additionally
    requires [authStatus.userId === targetUserId]; a mismatch yields 401
    with [Unauthorized], authenticated or not, and skips the operation. *)
Definition runIfAuthorized (authStatus : AuthStatus) (targetUserId : string)
    (operation : Operation) (w : W) : ServiceResponse A * W :=
  if decide (userId authStatus = Some targetUserId) then
    runIfAuthenticated authStatus operation w
  else
    ({| data := None; errors := [Unauthorized]; statusCode := 401 |}, w).
End Gate.
Arguments Operation : clear implicits.

(** Modelled from the spec: [runIfAuthenticated] (section 4.3) again, for
    an operation whose value is no envelope, as the array of
    [Promise.all] in [movies].  The value is forwarded as it is, [inr];
    the two envelopes the gate makes itself, which carry no data, are
    [inl]. *)
Definition runIfAuthenticatedAny {W R} (authStatus : AuthStatus)
    (operation : W -> Outcome R * W) (w : W) : (ServiceResponse unit + R) * W :=
  if isAuthenticated authStatus then
    match operation w with
    | (Returned value, w') => (inr value, w')
    | (Throws err, w') =>
        (inl {| data := None;
                errors := [ {| message := exn_message err |} ];
                statusCode := 500 |}, w')
    end
  else
    (inl {| data := None; errors := [Unauthenticated]; statusCode := 401 |}, w).

(** An operation that also counts how often it has been invoked. *)
Definition counted {W A} (operation : Operation W A) : Operation (W * nat) A :=
  λ '(w, calls), let '(r, w') := operation w in (r, (w', S calls)).

(** ** TokenIssuer, the flows and the resolvers *)

(** What [refreshAllTokens] hands back to [silentRefresh]. *)
Record RefreshResult := {
  rr_user : option User;
  rr_jwtToken : string;
  rr_refreshTokenData : option RefreshTokenData
}.

(** The object a mutation returns; a field the resolver leaves out of the
    object literal is [None]. *)
Record Payload := {
  p_statusCode : Z;
  p_user : option User;
  p_jwtToken : option string;
  p_refreshTokenData : option (option RefreshTokenData);
  p_errors : list ErrorItem
}.

(** The States of RefreshFlow (section 4.4), one per store access. *)
Inductive RefreshPhase :=
| Presented
| LookedUp (record : RefreshTokenData)
| Validated (record : RefreshTokenData) (user : User)
| Rotated (newRecord : RefreshTokenData) (user : User)
| Finished (out : Outcome RefreshResult).

Definition Rejected : RefreshPhase :=
  Finished (Returned {| rr_user := None; rr_jwtToken := ""; rr_refreshTokenData := None |}).

Definition cookieSession (maxAgeMs : Z) : CookieOptions :=
  {| maxAge := Some maxAgeMs; expires := None;
     httpOnly := true; secure := true; sameSite := "none" |}.

(** [{ expires: new Date(0), httpOnly: true, secure: true, sameSite: 'none' }] *)
Definition cookieExpired : CookieOptions :=
  {| maxAge := None; expires := Some 0;
     httpOnly := true; secure := true; sameSite := "none" |}.

(** A movie as TMDB returns it; the resolvers modelled here read none of
    its fields. *)
Record TmdbMovieDetailed := { movie_id : Z; title : string }.

(** The [data] of a TMDB response: a movie, or a page of results. *)
#[warnings="-register-all"]
Inductive TmdbData :=
| TmdbMovie (movie : TmdbMovieDetailed)
| TmdbPage (results : list TmdbData) (total_pages total_results : Z).

(** The object the movie-list queries return; a field read off a [data]
    that lacks it is [None]. *)
Record MoviesPayload := {
  movies_of : option (list TmdbData);
  totalPages : option Z;
  totalResults : option Z
}.

(** The block every gated resolver runs on the gate's envelope:
    [if (errors.length) { if (statusCode === 401) throw new
    AuthenticationError(errors[0].message); throw new
    ApolloError(errors[0].message); }].  [None] when nothing is thrown. *)
Definition raiseErrors {A} (r : ServiceResponse A) : option Exn :=
  match errors r with
  | [] => None
  | e :: _ =>
      Some (if statusCode r =? 401 then AuthenticationError (message e)
            else ApolloError (message e))
  end.

(** ** Regular expressions, as far as the sources use them

    [isURIEncoded] and the CORS configuration each hold one regular
    expression.  Both are used for a yes-or-no answer only, so a pattern is
    the language it denotes; the matcher below decides it by derivatives. *)

Inductive Regex :=
| Void
| Eps
| Sym (p : ascii -> bool)
| Seq (r1 r2 : Regex)
| Alt (r1 r2 : Regex)
| Star (r : Regex).

(** A literal character. *)
Definition Chr (c : ascii) : Regex := Sym (Ascii.eqb c).

(** Line feed and carriage return: the line terminators among the
    characters of a [string]. *)
Definition lineTerminator (c : ascii) : bool :=
  Ascii.eqb c "010" || Ascii.eqb c "013".

(** [.] matches any character but a line terminator. *)
Definition Dot : Regex := Sym (λ c, negb (lineTerminator c)).

(** [[...]], a class of literal characters. *)
Definition Class (cs : list ascii) : Regex := Sym (λ c, existsb (Ascii.eqb c) cs).

Definition isDigit (c : ascii) : bool :=
  (48 <=? N_of_ascii c)%N && (N_of_ascii c <=? 57)%N.

(** [\d] *)
Definition Digit : Regex := Sym isDigit.

(** [r?], [r+], a literal string, [r{lo,hi}]. *)
Definition Opt (r : Regex) : Regex := Alt r Eps.
Definition Plus (r : Regex) : Regex := Seq r (Star r).

Fixpoint Lit (s : string) : Regex :=
  match s with
  | EmptyString => Eps
  | String c rest => Seq (Chr c) (Lit rest)
  end.

Fixpoint Power (n : nat) (r : Regex) : Regex :=
  match n with
  | O => Eps
  | S n => Seq r (Power n r)
  end.

Fixpoint UpTo (n : nat) (r : Regex) : Regex :=
  match n with
  | O => Eps
  | S n => Opt (Seq r (UpTo n r))
  end.

Definition Repeat (lo hi : nat) (r : Regex) : Regex :=
  Seq (Power lo r) (UpTo (hi - lo) r).

(** The strings a pattern matches in full. *)
Inductive Matches : Regex -> list ascii -> Prop :=
| MEps : Matches Eps []
| MSym p c : p c = true -> Matches (Sym p) [c]
| MSeq r1 r2 s1 s2 :
    Matches r1 s1 -> Matches r2 s2 -> Matches (Seq r1 r2) (s1 ++ s2)%list
| MAltL r1 r2 s : Matches r1 s -> Matches (Alt r1 r2) s
| MAltR r1 r2 s : Matches r2 s -> Matches (Alt r1 r2) s
| MStarNil r : Matches (Star r) []
| MStarCons r s1 s2 :
    Matches r s1 -> Matches (Star r) s2 -> Matches (Star r) (s1 ++ s2)%list.

Fixpoint nullable (r : Regex) : bool :=
  match r with
  | Void => false
  | Eps => true
  | Sym _ => false
  | Seq r1 r2 => nullable r1 && nullable r2
  | Alt r1 r2 => nullable r1 || nullable r2
  | Star _ => true
  end.

Fixpoint deriv (c : ascii) (r : Regex) : Regex :=
  match r with
  | Void => Void
  | Eps => Void
  | Sym p => if p c then Eps else Void
  | Seq r1 r2 =>
      if nullable r1 then Alt (Seq (deriv c r1) r2) (deriv c r2)
      else Seq (deriv c r1) r2
  | Alt r1 r2 => Alt (deriv c r1) (deriv c r2)
  | Star r1 => Seq (deriv c r1) (Star r1)
  end.

Fixpoint matchesb (r : Regex) (s : list ascii) : bool :=
  match s with
  | [] => nullable r
  | c :: rest => matchesb (deriv c r) rest
  end.

(** A pattern as written between the slashes: its body, and whether it
    ends in [$]. *)
Record Pattern := { body : Regex; anchoredAtEnd : bool }.

Definition anything : Regex := Star (Sym (λ _, true)).

(** [pattern.test(str)], and [str.match(pattern) !== null]: the pattern is
    searched for anywhere in the string, up to its end when it ends in
    [$]. *)
Definition regexp_test (pattern : Pattern) (str : string) : bool :=
  matchesb
    (Seq anything
       (Seq (body pattern) (if anchoredAtEnd pattern then Eps else anything)))
    (list_ascii_of_string str).

(** ** [isURIEncoded] and [encodeURI] *)

(** The characters of the class in [isURIEncoded]: space, double quote,
    [<], [>], [{], [}], [|], backslash, [^], [~], [[] and []]. *)
Definition unsafeCharacters : list ascii :=
  [" "; "034"; "<"; ">"; "{"; "}"; "|"; "\"; "^"; "~"; "["; "]"]%char.

(** The pattern of line 23: [.*], one character of the class, [.*]. *)
Definition unsafePattern : Pattern :=
  {| body := Seq (Star Dot) (Seq (Class unsafeCharacters) (Star Dot));
     anchoredAtEnd := false |}.

(** [isURIEncoded], lines 22-23. *)
Definition isURIEncoded (str : string) : bool := negb (regexp_test unsafePattern str).

(** The characters [encodeURI] leaves alone: letters, digits, the marks
    [-_.!~*'()], the reserved [;/?:@&=+$,] and [#]. *)
Definition uriUnescaped (c : ascii) : bool :=
  let n := N_of_ascii c in
  ((65 <=? n) && (n <=? 90))%N || ((97 <=? n) && (n <=? 122))%N
  || isDigit c
  || existsb (Ascii.eqb c)
       ["-"; "_"; "."; "!"; "~"; "*"; "'"; "("; ")";
        ";"; "/"; "?"; ":"; "@"; "&"; "="; "+"; "$"; ","; "#"]%char.

Definition hexDigit (n : N) : ascii :=
  ascii_of_N (if (n <? 10)%N then 48 + n else 55 + n).

(** [%XX] for one octet, in upper-case hexadecimal. *)
Definition percentEncode (octet : N) : string :=
  String "%" (String (hexDigit (octet / 16)) (String (hexDigit (octet mod 16)) "")).

(** The escape of one character: a character below 128 is its own UTF-8
    octet, one from 128 to 255 takes two octets. *)
Definition encodeCharacter (c : ascii) : string :=
  if uriUnescaped c then String c ""
  else
    let n := N_of_ascii c in
    if (n <? 128)%N then percentEncode n
    else percentEncode (192 + n / 64) ++ percentEncode (128 + n mod 64).

(** [encodeURI], on strings whose characters are code units below 256
    (every [string] here is one). *)
Fixpoint encodeURI (uri : string) : string :=
  match uri with
  | EmptyString => EmptyString
  | String c rest => encodeCharacter c ++ encodeURI rest
  end.

(** [isURIEncoded(query) ? query : encodeURI(query)], line 78. *)
Definition encodedQuery (query : string) : string :=
  if isURIEncoded query then query else encodeURI query.

(** A template literal prints a missing number as [undefined]. *)
Definition printNumber (n : option Z) : string :=
  match n with
  | Some n => pretty n
  | None => "undefined"
  end.

(** The path [search] requests, line 83. *)
Definition searchPath (query : string) (page : option Z) : string :=
  "/search/movie?query=" ++ encodedQuery query ++ "&page=" ++ printNumber page.

(** The [query] argument of [search].  [Text] is a text of code units
    below 256, as every [string] here is.  [Malformed] stands for the
    texts in which a character of [unsafeCharacters] comes together with
    a surrogate code unit that lacks its partner: [isURIEncoded] rejects
    such a text and [encodeURI] refuses it with a [URIError].  Other
    texts with code units from 256 on, which reach the path as they are
    or escaped, are not covered. *)
Inductive QueryText :=
| Text (query : string)
| Malformed.

(** What [encodeURI] throws for a surrogate without its partner. *)
Definition uriMalformed : Exn := JsError "URIError: URI malformed".

(** ** The field resolvers of [TMDBMovie] *)

Record Genre := { genre_id : Z; genre_name : string }.

(** What tells a movie of a result list from a detailed one: the first
    carries [genre_ids], the second [budget] and [genres]. *)
Inductive MovieKind :=
| SimpleMovie (genre_ids : list Z)
| DetailedMovie (budget : Z) (genres : list Genre).

(** A movie as the field resolvers read it; a path TMDB does not have is
    [null]. *)
Record TmdbMovieObject := {
  tm_id : Z;
  backdrop_path : option string;
  poster_path : option string;
  tm_kind : MovieKind
}.

Record ImageBaseUrls := { backdropBaseUrl : string; posterBaseUrl : string }.

(** The part of the GraphQL context the field resolvers read; either may
    be missing. *)
Record MovieContext := {
  imageBaseUrls : option ImageBaseUrls;
  genreLookupTable : option (gmap Z Genre)
}.

(** A path is truthy when it is a non-empty string. *)
Definition truthyPath (path : option string) : option string :=
  match path with
  | Some p => if decide (p = "") then None else Some p
  | None => None
  end.

(** [__resolveType], lines 27-29. *)
Definition resolveType (movie : TmdbMovieObject) : string :=
  match tm_kind movie with
  | DetailedMovie _ _ => "TMDBMovieDetailed"
  | SimpleMovie _ => "TMDBMovieSimple"
  end.

(** [id], line 30. *)
Definition movieIdField (movie : TmdbMovieObject) : string := pretty (tm_id movie).

(** [backdropUrl], lines 31-34. *)
Definition backdropUrl (movie : TmdbMovieObject) (ctx : MovieContext) : string :=
  match truthyPath (backdrop_path movie), imageBaseUrls ctx with
  | Some path, Some urls => backdropBaseUrl urls ++ path
  | _, _ => ""
  end.

(** [posterUrl], lines 35-38. *)
Definition posterUrl (movie : TmdbMovieObject) (ctx : MovieContext) : string :=
  match truthyPath (poster_path movie), imageBaseUrls ctx with
  | Some path, Some urls => posterBaseUrl urls ++ path
  | _, _ => ""
  end.

(** [genres], lines 39-45; an id the table does not know gives
    [undefined], here [None]. *)
Definition genresField (movie : TmdbMovieObject) (ctx : MovieContext)
    : list (option Genre) :=
  match tm_kind movie with
  | SimpleMovie genre_ids =>
      map (λ genreId,
             match genreLookupTable ctx with
             | Some table => table !! genreId
             | None => Some {| genre_id := -1; genre_name := "" |}
             end) genre_ids
  | DetailedMovie _ genres => map Some genres
  end.

(** ** The CORS configuration of the application *)

(** [/http(s)?:\/\/(.+\.)?localhost(:\d{1,5})?$/], line 56 of the
    application file. *)
Definition localhostPattern : Pattern :=
  {| body :=
       Seq (Lit "http")
         (Seq (Opt (Chr "s"))
            (Seq (Lit "://")
               (Seq (Opt (Seq (Plus Dot) (Chr ".")))
                  (Seq (Lit "localhost")
                     (Opt (Seq (Chr ":") (Repeat 1 5 Digit)))))));
     anchoredAtEnd := true |}.

(** An entry of the [origin] list: a string to equal or a pattern to
    match. *)
Inductive AllowedOrigin :=
| OriginString (origin : string)
| OriginPattern (pattern : Pattern).

(** The [origin] option, lines 55-60. *)
Definition corsOrigins : list AllowedOrigin :=
  [ OriginPattern localhostPattern;
    OriginString "https://restflix.netlify.app";
    OriginString "https://graphflix.netlify.app";
    OriginString "https://studio.apollographql.com" ].

(** How the CORS middleware reads that list for the [Origin] of a
    request: some entry equals or matches it. *)
Definition isOriginAllowed (origin : string) (allowed : AllowedOrigin) : bool :=
  match allowed with
  | OriginString s => bool_decide (origin = s)
  | OriginPattern pattern => regexp_test pattern origin
  end.

Definition originAllowed (origin : string) : bool :=
  existsb (isOriginAllowed origin) corsOrigins.

(** ** A small deployment, for the worked examples *)

Module Demo.
Definition alice : User :=
  {| _id := "u1"; username := "alice"; passwordHash := "h1" |}.

Definition registered : gmap string User := {[ "u1" := alice ]}.

(** The fingerprint is the hash itself. *)
Definition fingerprint (passwordHash : string) : string := passwordHash.

(** Access tokens live 15 minutes, refresh tokens 7 days. *)
Definition JWT_TOKEN_EXPIRATION_IN_SECONDS : Z := 900.
Definition REFRESH_TOKEN_EXPIRATION_IN_SECONDS : Z := 604800.

(** The one access token in circulation: ["T1"], issued to alice at
    time 0. *)
Definition payload : JwtPayload :=
  {| jwt_userId := "u1"; jwt_passwordHashFingerprint := "h1";
     issuedAt := 0; jwt_expiresAt := 900000 |}.

Definition jwt_sign (_ : JwtPayload) : Outcome string := Returned "T1".

Definition jwt_verify (token : string) : option JwtPayload :=
  if decide (token = "T1") then Some payload else None.

(** A signer without its secret. *)
Definition jwt_sign_unconfigured (_ : JwtPayload) : Outcome string :=
  Throws (JsError "secretOrPrivateKey must have a value").

(** The refresh token ["R1"], issued to alice at time 0. *)
Definition record : RefreshTokenData :=
  {| refreshToken := "R1"; rt_userId := "u1";
     rt_passwordHashFingerprint := "h1"; expiresAt := 604800000 |}.

Definition store : Store :=
  {| whitelist := {[ "R1" := record ]}; blacklist := ∅ |}.

(** Collaborators: a login that finds alice, an update that answers with
    the stored user, and a catalogue that knows movie 1 only. *)
Definition usersService_loginUser (username password : string)
    : Operation (gmap string User) User :=
  λ w, (Returned {| data := Some alice; errors := []; statusCode := 200 |}, w).

Definition usersService_updateUser (userId : string) (newUserData : string)
    : Operation (gmap string User) User :=
  λ w, (Returned {| data := w !! userId; errors := []; statusCode := 200 |}, w).

Definition tmdbFetch (path : string) : Outcome (ServiceResponse TmdbData) :=
  if decide (path = "/movie/1") then
    Returned {| data := Some (TmdbMovie {| movie_id := 1; title := "Alien" |});
                errors := []; statusCode := 200 |}
  else
    Returned {| data := None;
                errors := [ {| message := "The resource you requested could not be found." |} ];
                statusCode := 404 |}.
(** A catalogue that cannot reach movie 13. *)
Definition tmdbFetch_flaky (path : string) : Outcome (ServiceResponse TmdbData) :=
  if decide (path = "/movie/13") then Throws (JsError "connect ETIMEDOUT")
  else tmdbFetch path.

(** A deletion that answers with the user it removed, and favourites that
    answer with the stored user. *)
Definition usersService_deleteUser (userId : string)
    : Operation (gmap string User) User :=
  λ w, (Returned {| data := w !! userId; errors := []; statusCode := 200 |},
        delete userId w).

Definition usersService_favorite (userId movieId : string)
    : Operation (gmap string User) User :=
  λ w, (Returned {| data := w !! userId; errors := []; statusCode := 200 |}, w).






End Demo.

Section Core.
(** The collaborators and constants that live outside the sources:
    the JWT library with its secret, the fingerprint of a password hash,
    and the two lifetimes of [#auth/auth.config]. *)
Variable jwt_sign : JwtPayload -> Outcome string.
Variable jwt_verify : string -> option JwtPayload.
Variable fingerprint : string -> string.
Variable JWT_TOKEN_EXPIRATION_IN_SECONDS : Z.
Variable REFRESH_TOKEN_EXPIRATION_IN_SECONDS : Z.

(** Modelled from the spec: [issueAccessToken] (section 4.1), imported
    by the resolvers as [generateJWTToken]: signs the payload with a
    fixed lifetime; a signing failure is thrown, not returned. *)
Definition generateJWTToken (userId passwordHash : string) (now : Z) : Outcome string :=
  jwt_sign {| jwt_userId := userId;
              jwt_passwordHashFingerprint := fingerprint passwordHash;
              issuedAt := now;
              jwt_expiresAt := now + JWT_TOKEN_EXPIRATION_IN_SECONDS * 1000 |}.

(** Modelled from the spec: [issueRefreshToken] (section 4.1), imported
    as [generateRefreshTokenData]; [random] is the string drawn from the
    secure random source. *)
Definition generateRefreshTokenData (userId passwordHash : string) (now : Z)
    (random : string) : RefreshTokenData :=
  {| refreshToken := random;
     rt_userId := userId;
     rt_passwordHashFingerprint := fingerprint passwordHash;
     expiresAt := now + REFRESH_TOKEN_EXPIRATION_IN_SECONDS * 1000 |}.

(** Modelled from the spec: [verifyAccessToken] (section 4.1): signature
    and expiry only. *)
Definition verifyAccessToken (token : string) (now : Z) : option JwtPayload :=
  match jwt_verify token with
  | Some payload => if now <? jwt_expiresAt payload then Some payload else None
  | None => None
  end.

(** Modelled from the spec: the per-request derivation of [AuthStatus]
    (the auth router is absent): signature and expiry (section 2), the
    embedded fingerprint against the user's current password hash
    (section 3), the blacklist (section 4.1).  Every failure collapses
    into the one unauthenticated status (section 7). *)
Definition deriveAuthStatus (users : gmap string User) (s : Store)
    (token : option string) (now : Z) : AuthStatus :=
  let unauthenticated := {| isAuthenticated := false; userId := None |} in
  match token with
  | None => unauthenticated
  | Some t =>
      match verifyAccessToken t now with
      | None => unauthenticated
      | Some payload =>
          match users !! jwt_userId payload with
          | None => unauthenticated
          | Some user =>
              if decide (jwt_passwordHashFingerprint payload
                         = fingerprint (passwordHash user)) then
                if blacklistContains now t s then unauthenticated
                else {| isAuthenticated := true; userId := Some (jwt_userId payload) |}
              else unauthenticated
          end
      end
  end.

(** Modelled from the spec: [addRefreshTokenToWhitelist],
    [removeRefreshTokenFromWhitelist] and [addAccessTokenToBlacklist] of
    [#auth/auth.service], over the store operations.  A missing token is
    skipped; a token that does not decode is skipped (section 4.5, 1);
    the blacklist entry expires with the token. *)
Definition addRefreshTokenToWhitelist (d : RefreshTokenData) (s : Store) : Store :=
  whitelistAdd d s.

Definition removeRefreshTokenFromWhitelist (token : option string) (s : Store) : Store :=
  match token with
  | Some t => whitelistRemove t s
  | None => s
  end.

Definition addAccessTokenToBlacklist (jwtToken : option string) (s : Store) : Store :=
  match jwtToken with
  | Some t =>
      match jwt_verify t with
      | Some payload => blacklistAdd t (jwt_expiresAt payload) s
      | None => s
      end
  | None => s
  end.

(** *** RefreshFlow *)

Definition reissued (user : User) (jwtToken : string) (newRecord : RefreshTokenData)
    : RefreshResult :=
  {| rr_user := Some user; rr_jwtToken := jwtToken;
     rr_refreshTokenData := Some newRecord |}.

Definition rejected : RefreshResult :=
  {| rr_user := None; rr_jwtToken := ""; rr_refreshTokenData := None |}.

(** Modelled from the spec: one store access of RefreshFlow (section 4.4)
    for the presented [token]; [random] is the string the issuer draws
    for the new refresh token.  Step 1 looks the token up, step 2
    compares the fingerprint with the current user record and removes a
    stale record, step 3 swaps the record, step 4 signs. *)
Definition refresh_step (users : gmap string User) (token : string) (now : Z)
    (random : string) (s : Store) (ph : RefreshPhase) : Store * RefreshPhase :=
  match ph with
  | Presented =>
      match whitelistLookup now token s with
      | Some record => (s, LookedUp record)
      | None => (s, Rejected)
      end
  | LookedUp record =>
      match users !! rt_userId record with
      | Some user =>
          if decide (rt_passwordHashFingerprint record = fingerprint (passwordHash user))
          then (s, Validated record user)
          else (whitelistRemove token s, Rejected)
      | None => (whitelistRemove token s, Rejected)
      end
  | Validated record user =>
      let newRecord :=
        generateRefreshTokenData (rt_userId record) (passwordHash user) now random in
      match whitelistReplace token newRecord s with
      | Some s' => (s', Rotated newRecord user)
      | None => (s, Rejected)
      end
  | Rotated newRecord user =>
      match generateJWTToken (rt_userId newRecord) (passwordHash user) now with
      | Returned jwtToken => (s, Finished (Returned (reissued user jwtToken newRecord)))
      | Throws err => (s, Finished (Throws err))
      end
  | Finished _ => (s, ph)
  end.

(** Modelled from the spec: [refreshAllTokens] of [#auth/auth.service],
    the four steps of section 4.4 in sequence.  A request without the
    cookie presents no token and is rejected at the lookup. *)
Definition refreshAllTokens (users : gmap string User) (token : option string)
    (now : Z) (random : string) (s : Store) : Outcome RefreshResult * Store :=
  match token with
  | None => (Returned rejected, s)
  | Some t =>
      match whitelistLookup now t s with
      | None => (Returned rejected, s)
      | Some record =>
          match users !! rt_userId record with
          | None => (Returned rejected, whitelistRemove t s)
          | Some user =>
              if decide (rt_passwordHashFingerprint record
                         = fingerprint (passwordHash user)) then
                let newRecord :=
                  generateRefreshTokenData (rt_userId record) (passwordHash user)
                    now random in
                match whitelistReplace t newRecord s with
                | None => (Returned rejected, s)
                | Some s' =>
                    match generateJWTToken (rt_userId newRecord) (passwordHash user) now with
                    | Returned jwtToken => (Returned (reissued user jwtToken newRecord), s')
                    | Throws err => (Throws err, s')
                    end
                end
              else (Returned rejected, whitelistRemove t s)
          end
      end
  end.

(** *** The session mutations of the resolvers *)

(** What [silentRefresh] does once [refreshAllTokens] has settled: lines
    312-340.  A rejection of the awaited call leaves the resolver as a
    throw, there is no handler around it. *)
Definition silentRefresh_respond (out : Outcome RefreshResult) (res : Res)
    : Outcome Payload * Res :=
  match out with
  | Throws err => (Throws err, res)
  | Returned r =>
      match rr_refreshTokenData r with
      | None =>
          (Returned {| p_statusCode := 400; p_user := None; p_jwtToken := Some "";
                       p_refreshTokenData := None;
                       p_errors := [InvalidRefreshToken] |},
           res_cookie "refreshToken" "" cookieExpired res)
      | Some refreshTokenData =>
          (Returned {| p_statusCode := 200; p_user := rr_user r;
                       p_jwtToken := Some (rr_jwtToken r);
                       p_refreshTokenData := None;
                       p_errors := [] |},
           res_cookie "refreshToken" (refreshToken refreshTokenData)
             (cookieSession (REFRESH_TOKEN_EXPIRATION_IN_SECONDS * 1000)) res)
      end
  end.

Definition silentRefresh (users : gmap string User) (req : Req) (now : Z)
    (random : string) (res : Res) (s : Store) : Outcome Payload * Res * Store :=
  let '(out, s') := refreshAllTokens users (cookies_refreshToken req) now random s in
  (silentRefresh_respond out res, s').

(** [logoutUser], lines 343-358.  [req?.headers?.authorization?.slice?.(7)]
    is [undefined] when the header is missing. *)
Definition logoutUser (req : Req) (res : Res) (s : Store) : Outcome Payload * Res * Store :=
  let token := cookies_refreshToken req in
  let jwtToken := slice 7 <$> headers_authorization req in
  let s1 := addAccessTokenToBlacklist jwtToken s in
  let s2 := removeRefreshTokenFromWhitelist token s1 in
  (Returned {| p_statusCode := 200; p_user := None; p_jwtToken := None;
               p_refreshTokenData := None; p_errors := [] |},
   res_cookie "refreshToken" "" cookieExpired res,
   s2).

(** *** The collaborators behind the gate *)

Variable NewUserData : Type.
Variable usersService_loginUser :
  string -> string -> Operation (gmap string User) User.
Variable usersService_addUser : NewUserData -> Operation (gmap string User) User.
Variable usersService_updateUser :
  string -> NewUserData -> Operation (gmap string User) User.
Variable usersService_deleteUser : string -> Operation (gmap string User) User.
Variable usersService_findAllUsers : Operation (gmap string User) (list User).
Variable tmdbFetch : string -> Outcome (ServiceResponse TmdbData).

(** The [catch] block of [loginUser], lines 291-302. *)
Definition loginUser_catch (err : Exn) : Payload :=
  {| p_statusCode := 500; p_user := None; p_jwtToken := Some "";
     p_refreshTokenData := Some None;
     p_errors := [ {| message := exn_message err |} ] |}.

(** [loginUser], lines 251-303: the whole body sits in one [try]. *)
Definition loginUser (username password : string) (now : Z) (random : string)
    (res : Res) (s : Store) (w : gmap string User)
    : Outcome Payload * Res * Store * gmap string User :=
  match usersService_loginUser username password w with
  | (Throws err, w') => (Returned (loginUser_catch err), res, s, w')
  | (Returned r, w') =>
      match data r with
      | None =>
          (Returned {| p_statusCode := statusCode r; p_user := None;
                       p_jwtToken := Some ""; p_refreshTokenData := Some None;
                       p_errors := errors r |}, res, s, w')
      | Some user =>
          let userId := _id user in
          let passwordHash := passwordHash user in
          let refreshTokenData := generateRefreshTokenData userId passwordHash now random in
          match generateJWTToken userId passwordHash now with
          | Throws err => (Returned (loginUser_catch err), res, s, w')
          | Returned jwtToken =>
              (Returned {| p_statusCode := statusCode r; p_user := Some user;
                           p_jwtToken := Some jwtToken;
                           p_refreshTokenData := Some (Some refreshTokenData);
                           p_errors := errors r |},
               res_cookie "refreshToken" (refreshToken refreshTokenData)
                 (cookieSession (REFRESH_TOKEN_EXPIRATION_IN_SECONDS * 1000)) res,
               addRefreshTokenToWhitelist refreshTokenData s,
               w')
          end
      end
  end.


(** The tail shared by [updateUser] and [deleteUser]: raise the
    envelope's errors or return [{ statusCode, user: data, errors }]. *)
Definition userPayload (r : ServiceResponse User) : Outcome Payload :=
  match raiseErrors r with
  | Some exn => Throws exn
  | None =>
      Returned {| p_statusCode := statusCode r; p_user := data r; p_jwtToken := None;
                  p_refreshTokenData := None; p_errors := errors r |}
  end.

(** [updateUser], lines 177-192. *)
Definition updateUser (userId : string) (newUserData : NewUserData)
    (authStatus : AuthStatus) (w : gmap string User)
    : Outcome Payload * gmap string User :=
  let '(r, w') :=
    runIfAuthorized authStatus userId (usersService_updateUser userId newUserData) w in
  (userPayload r, w').

(** [deleteUser], lines 194-209. *)
Definition deleteUser (userId : string) (authStatus : AuthStatus)
    (w : gmap string User) : Outcome Payload * gmap string User :=
  let '(r, w') := runIfAuthorized authStatus userId (usersService_deleteUser userId) w in
  (userPayload r, w').

(** [users], lines 153-167. *)
Definition users (authStatus : AuthStatus) (w : gmap string User)
    : Outcome (option (list User)) * gmap string User :=
  let '(r, w') := runIfAuthenticated authStatus usersService_findAllUsers w in
  (match raiseErrors r with
   | Some exn => Throws exn
   | None => Returned (data r)
   end, w').

(** A TMDB request as an operation: it touches no state of this core. *)
Definition tmdbOperation {W} (path : string) : Operation W TmdbData :=
  λ w, (tmdbFetch path, w).

(** [{ movies: data.results, totalPages: data.total_pages, totalResults:
    data.total_results }]; reading a property of a [null] data throws. *)
Definition pageOf (d : option TmdbData) : Outcome MoviesPayload :=
  match d with
  | Some (TmdbPage results total_pages total_results) =>
      Returned {| movies_of := Some results; totalPages := Some total_pages;
                  totalResults := Some total_results |}
  | Some (TmdbMovie _) =>
      Returned {| movies_of := None; totalPages := None; totalResults := None |}
  | None => Throws (JsError "TypeError: Cannot read properties of null")
  end.

(** [discover], lines 48-76.  [page] defaults to 1; [restArgs] are the
    remaining options as key and printed value, in property order. *)
Definition discoverPath (page : option Z) (restArgs : list (string * string)) : string :=
  let page := default 1 page in
  let queryArgsArray := map (λ kv, "&" ++ kv.1 ++ "=" ++ kv.2) restArgs in
  "/discover/movie?page=" ++ pretty page ++ String.concat "" queryArgsArray.

Definition discover (page : option Z) (restArgs : list (string * string))
    (authStatus : AuthStatus) : Outcome MoviesPayload :=
  let path := discoverPath page restArgs in
  let '(r, _) := runIfAuthenticated authStatus (tmdbOperation path) tt in
  match raiseErrors r with
  | Some exn => Throws exn
  | None => pageOf (data r)
  end.

(** [movie], lines 100-114. *)
Definition movie (movieId : string) (authStatus : AuthStatus)
    : Outcome (option TmdbData) :=
  let '(r, _) := runIfAuthenticated authStatus (tmdbOperation ("/movie/" ++ movieId)) tt in
  match raiseErrors r with
  | Some exn => Throws exn
  | None => Returned (data r)
  end.

(** The callbacks of [movieIds.map(...)] under [Promise.all], lines
    127-136, run in the order [arrival] in which their fetches settle:
    each pushes its [response.data], when there is one, onto the
    [movies] array of the enclosing resolver.  The first rejection
    rejects the whole. *)
Fixpoint fetchInto (arrival : list string) (movies : list TmdbData)
    : Outcome unit * list TmdbData :=
  match arrival with
  | [] => (Returned tt, movies)
  | movieId :: rest =>
      match tmdbFetch ("/movie/" ++ movieId) with
      | Throws err => (Throws err, movies)
      | Returned response =>
          fetchInto rest
            (match data response with
             | Some movie => (movies ++ [movie])%list
             | None => movies
             end)
      end
  end.

(** The operation [movies] hands to the gate, lines 126-136.  Its value
    is the array of [Promise.all]: one [undefined] for each id, as the
    callbacks return nothing.  The movies are in the [movies] array of
    the enclosing resolver, the state the operation acts on. *)
Definition moviesOperation (arrival : list string) (movies : list TmdbData)
    : Outcome (list unit) * list TmdbData :=
  match fetchInto arrival movies with
  | (Returned _, movies') => (Returned (map (λ _, tt) arrival), movies')
  | (Throws err, movies') => (Throws err, movies')
  end.

(** What [errors.length] at line 139 throws when [errors] is
    [undefined]. *)
Definition errorsUndefined : Exn :=
  JsError "TypeError: Cannot read properties of undefined (reading 'length')".

(** [movies], lines 116-151.  [arrival] lists [movieIds] in the order in
    which the parallel fetches settle.  Line 124 takes [errors] and
    [statusCode] out of what the gate hands back: of an envelope they are
    its fields; the forwarded array has neither, both are [undefined],
    and line 139 throws before the [return] of line 146 is reached. *)
Definition movies (arrival : list string) (authStatus : AuthStatus)
    : Outcome MoviesPayload :=
  let '(result, movies) :=
    runIfAuthenticatedAny authStatus (moviesOperation arrival) [] in
  match result with
  | inl r =>
      match raiseErrors r with
      | Some exn => Throws exn
      | None =>
          Returned {| movies_of := Some movies; totalPages := Some 1;
                      totalResults := Some (Z.of_nat (length movies)) |}
      end
  | inr _ => Throws errorsUndefined
  end.

(** *** The remaining gated resolvers *)

Variable usersService_addFavoriteMovieToUser :
  string -> string -> Operation (gmap string User) User.
Variable usersService_removeFavoriteMovieFromUser :
  string -> string -> Operation (gmap string User) User.

(** [search], lines 77-98.  Line 78 runs before the gate is asked: the
    [URIError] of [encodeURI] leaves the resolver whatever [authStatus]
    is. *)
Definition search (query : QueryText) (page : option Z) (authStatus : AuthStatus)
    : Outcome MoviesPayload :=
  match query with
  | Malformed => Throws uriMalformed
  | Text query =>
      let '(r, _) :=
        runIfAuthenticated authStatus (tmdbOperation (searchPath query page)) tt in
      match raiseErrors r with
      | Some exn => Throws exn
      | None => pageOf (data r)
      end
  end.

(** [addFavoriteMovieToUser], lines 211-227. *)
Definition addFavoriteMovieToUser (userId movieId : string) (authStatus : AuthStatus)
    (w : gmap string User) : Outcome Payload * gmap string User :=
  let '(r, w') :=
    runIfAuthorized authStatus userId
      (usersService_addFavoriteMovieToUser userId movieId) w in
  (userPayload r, w').

(** [removeFavoriteMovieFromUser], lines 229-249. *)
Definition removeFavoriteMovieFromUser (userId movieId : string)
    (authStatus : AuthStatus) (w : gmap string User)
    : Outcome Payload * gmap string User :=
  let '(r, w') :=
    runIfAuthorized authStatus userId
      (usersService_removeFavoriteMovieFromUser userId movieId) w in
  (userPayload r, w').

(** A cookie as every session mutation sets it. *)
Definition sessionCookie (c : Cookie) : Prop :=
  cookie_name c = "refreshToken"
  ∧ httpOnly (cookie_options c) = true
  ∧ secure (cookie_options c) = true
  ∧ sameSite (cookie_options c) = "none".

(** *** Requests in flight *)

(** One [silentRefresh] request: the token of its cookie, its clock and
    the random string its issuer draws. *)
Record Call := { call_token : string; call_now : Z; call_random : string }.

(** Two requests over the one store, each at its own phase. *)
Definition Race : Type := Store * RefreshPhase * RefreshPhase.

(** The scheduler lets one of the two requests make its next store
    access: [true] the first, [false] the second. *)
Definition race_step (users : gmap string User) (c1 c2 : Call) (cfg : Race)
    (first : bool) : Race :=
  let '(s, p1, p2) := cfg in
  if first then
    let '(s', p1') :=
      refresh_step users (call_token c1) (call_now c1) (call_random c1) s p1 in
    (s', p1', p2)
  else
    let '(s', p2') :=
      refresh_step users (call_token c2) (call_now c2) (call_random c2) s p2 in
    (s', p1, p2').

Definition race (users : gmap string User) (c1 c2 : Call) (schedule : list bool)
    (cfg : Race) : Race :=
  fold_left (race_step users c1 c2) schedule cfg.


(** The response of a request that has settled; [None] while in flight. *)
Definition response (ph : RefreshPhase) : option (Outcome Payload) :=
  match ph with
  | Finished out => Some (silentRefresh_respond out []).1
  | _ => None
  end.

(** The two envelopes [silentRefresh] can return. *)
Definition refreshed (user : User) (jwtToken : string) : Payload :=
  {| p_statusCode := 200; p_user := Some user; p_jwtToken := Some jwtToken;
     p_refreshTokenData := None; p_errors := [] |}.

Definition invalidRefreshToken : Payload :=
  {| p_statusCode := 400; p_user := None; p_jwtToken := Some "";
     p_refreshTokenData := None; p_errors := [InvalidRefreshToken] |}.

(** The envelope of [logoutUser]. *)
Definition loggedOut : Payload :=
  {| p_statusCode := 200; p_user := None; p_jwtToken := None;
     p_refreshTokenData := None; p_errors := [] |}.

(** What happens to the store between a logout and a later request. *)
Inductive StoreEvent :=
| EvWhitelistAdd (record : RefreshTokenData)
| EvWhitelistRemove (token : option string)
| EvWhitelistReplace (oldToken : string) (newRecord : RefreshTokenData)
| EvBlacklist (jwtToken : option string)
| EvSweep (now : Z).

Definition store_event (s : Store) (ev : StoreEvent) : Store :=
  match ev with
  | EvWhitelistAdd record => addRefreshTokenToWhitelist record s
  | EvWhitelistRemove token => removeRefreshTokenFromWhitelist token s
  | EvWhitelistReplace oldToken newRecord =>
      default s (whitelistReplace oldToken newRecord s)
  | EvBlacklist jwtToken => addAccessTokenToBlacklist jwtToken s
  | EvSweep now => sweep now s
  end.

(** The events of a history all happen before [now]. *)
Definition before (now : Z) (ev : StoreEvent) : Prop :=
  match ev with
  | EvSweep t => t <= now
  | _ => True
  end.


(** The invariant behind revocation: for a token that decodes, the
    blacklist holds its entry until the token itself has expired. *)
Definition shadowed (token : string) (now : Z) (s : Store) : Prop :=
  ∀ payload, jwt_verify token = Some payload →
    jwt_expiresAt payload <= now
    ∨ blacklist s !! token = Some (jwt_expiresAt payload).


(** The [response.data] a fetch of [movieId] settles with, if any. *)
Definition fetched (movieId : string) : option TmdbData :=
  match tmdbFetch ("/movie/" ++ movieId) with
  | Returned response => data response
  | Throws _ => None
  end.






(** ** Properties *)

(** *** Store operations *)

Lemma whitelistLookup_None (now : Z) (token : string) (s : Store) :
  whitelistLookup now token s = None ↔
  whitelist s !! token = None
  ∨ ∃ record, whitelist s !! token = Some record ∧ expiresAt record <= now.
Proof.
  unfold whitelistLookup.
  destruct (whitelist s !! token) as [record|] eqn:E.
  - destruct (Z.ltb_spec now (expiresAt record)); split.
    + discriminate.
    + intros [?|(r & Hr & ?)]; [discriminate|]. injection Hr as <-. lia.
    + intros _. right. eauto.
    + done.
  - split; [by left | done].
Qed.


Lemma store_eq (s1 s2 : Store) :
  whitelist s1 = whitelist s2 → blacklist s1 = blacklist s2 → s1 = s2.
Proof. destruct s1, s2; simpl; congruence. Qed.

Lemma removeRefreshTokenFromWhitelist_idemp (token : option string) (s : Store) :
  removeRefreshTokenFromWhitelist token (removeRefreshTokenFromWhitelist token s)
  = removeRefreshTokenFromWhitelist token s.
Proof.
  destruct token as [t|]; [|done].
  apply store_eq; [|done]. simpl. apply delete_delete_eq.
Qed.

Lemma addAccessTokenToBlacklist_idemp (jwtToken : option string) (s : Store) :
  addAccessTokenToBlacklist jwtToken (addAccessTokenToBlacklist jwtToken s)
  = addAccessTokenToBlacklist jwtToken s.
Proof.
  destruct jwtToken as [t|]; [|done]. simpl.
  destruct (jwt_verify t) as [payload|]; [|done].
  apply store_eq; [done|]. simpl. apply insert_insert_eq.
Qed.

Lemma blacklist_remove_comm (jwtToken token : option string) (s : Store) :
  addAccessTokenToBlacklist jwtToken (removeRefreshTokenFromWhitelist token s)
  = removeRefreshTokenFromWhitelist token (addAccessTokenToBlacklist jwtToken s).
Proof.
  destruct jwtToken as [t|], token as [r|]; simpl; try done;
    destruct (jwt_verify t); done.
Qed.

(** *** AuthorizationGate *)

(** C4. Whenever [authStatus.userId] differs from [targetUserId],
    [runIfAuthorized] answers with status 401 and the [Unauthorized]
    error, authenticated or not, and the wrapped operation is not
    invoked: the collaborators' state comes back untouched, and an
    operation that counts its invocations has the count it started
    with. *)
Theorem runIfAuthorized_mismatch {W A} (authStatus : AuthStatus)
    (targetUserId : string) (operation : Operation W A) (w : W) (calls : nat) :
  userId authStatus ≠ Some targetUserId →
  runIfAuthorized authStatus targetUserId operation w
  = ({| data := None; errors := [Unauthorized]; statusCode := 401 |}, w)
  ∧ runIfAuthorized authStatus targetUserId (counted operation) (w, calls)
    = ({| data := None; errors := [Unauthorized]; statusCode := 401 |}, (w, calls)).
Proof.
  intros Hne. unfold runIfAuthorized.
  destruct (decide (userId authStatus = Some targetUserId)); [done|].
  by split.
Qed.

(** *** RefreshFlow *)

(** A request whose token the lookup does not find is answered with the
    rejection, and the store is not touched. *)
Lemma silentRefresh_not_found (users : gmap string User) (req : Req) (now : Z)
    (random : string) (res : Res) (s : Store) :
  (∀ t, cookies_refreshToken req = Some t → whitelistLookup now t s = None) →
  silentRefresh users req now random res s
  = (Returned invalidRefreshToken, res_cookie "refreshToken" "" cookieExpired res, s).
Proof.
  intros Habsent. unfold silentRefresh, refreshAllTokens.
  destruct (cookies_refreshToken req) as [t|]; [|done].
  by rewrite (Habsent t eq_refl).
Qed.

(** C2. A [silentRefresh] whose cookie is missing, or whose token is
    absent from the whitelist or has a record that expired, is rejected:
    the [refreshToken] cookie is set to the empty value with the expiry
    date [new Date(0)], the envelope has status 400, a null user, an
    empty access token and the [InvalidRefreshToken] error, and the store
    is left as it was: nothing is issued. *)
Theorem silentRefresh_rejects (users : gmap string User) (req : Req) (now : Z)
    (random : string) (res : Res) (s : Store) :
  (∀ t, cookies_refreshToken req = Some t →
     whitelist s !! t = None
     ∨ ∃ record, whitelist s !! t = Some record ∧ expiresAt record <= now) →
  silentRefresh users req now random res s
  = (Returned {| p_statusCode := 400; p_user := None; p_jwtToken := Some "";
                 p_refreshTokenData := None;
                 p_errors := [ {| message := "Authentication Error: Invalid refresh token." |} ] |},
     (res ++ [ {| cookie_name := "refreshToken"; cookie_value := "";
                  cookie_options := {| maxAge := None; expires := Some 0;
                                       httpOnly := true; secure := true;
                                       sameSite := "none" |} |} ])%list,
     s).
Proof.
  intros Habsent. apply silentRefresh_not_found.
  intros t Ht. apply whitelistLookup_None. by apply Habsent.
Qed.

(** *** RevocationFlow *)

(** C5. [logoutUser] is total and idempotent: on every request, whatever
    tokens it carries or lacks, it returns status 200 with an empty
    errors list, and a second call with the same request returns the same
    and leaves the store exactly as the first call left it. *)
Theorem logoutUser_idempotent (req : Req) (res res' : Res) (s : Store) :
  ∃ s1,
    logoutUser req res s
    = (Returned {| p_statusCode := 200; p_user := None; p_jwtToken := None;
                   p_refreshTokenData := None; p_errors := [] |},
       res_cookie "refreshToken" "" cookieExpired res, s1)
    ∧ logoutUser req res' s1
      = (Returned {| p_statusCode := 200; p_user := None; p_jwtToken := None;
                     p_refreshTokenData := None; p_errors := [] |},
         res_cookie "refreshToken" "" cookieExpired res', s1).
Proof.
  eexists. split; [reflexivity|].
  unfold logoutUser. f_equal.
  rewrite blacklist_remove_comm, addAccessTokenToBlacklist_idemp.
  by rewrite removeRefreshTokenFromWhitelist_idemp.
Qed.

Lemma slice_app (scheme rest : string) :
  slice (String.length scheme) (scheme ++ rest) = rest.
Proof. induction scheme as [|c scheme IH]; [by destruct rest | exact IH]. Qed.

Lemma slice_short (n : nat) (header : string) :
  (String.length header <= n)%nat → slice n header = "".
Proof.
  revert n. induction header as [|c header IH]; intros [|n] Hn; simpl in *;
    try done; try lia.
  apply IH. lia.
Qed.

(** C9. [logoutUser] takes as access token whatever follows the first
    seven characters of the authorization header, whatever those seven
    characters are (a header of at most seven characters gives the empty
    string); without the header the token is undefined, the blacklist is
    left as it is, and the call still returns status 200. *)
Theorem logoutUser_slices_header (cookie : option string) (res : Res) (s : Store) :
  (∀ scheme rest : string,
     String.length scheme = 7%nat →
     logoutUser {| cookies_refreshToken := cookie;
                   headers_authorization := Some (scheme ++ rest) |} res s
     = (Returned {| p_statusCode := 200; p_user := None; p_jwtToken := None;
                    p_refreshTokenData := None; p_errors := [] |},
        res_cookie "refreshToken" "" cookieExpired res,
        removeRefreshTokenFromWhitelist cookie
          (addAccessTokenToBlacklist (Some rest) s)))
  ∧ (∀ header : string,
       (String.length header <= 7)%nat →
       logoutUser {| cookies_refreshToken := cookie;
                     headers_authorization := Some header |} res s
       = (Returned {| p_statusCode := 200; p_user := None; p_jwtToken := None;
                      p_refreshTokenData := None; p_errors := [] |},
          res_cookie "refreshToken" "" cookieExpired res,
          removeRefreshTokenFromWhitelist cookie
            (addAccessTokenToBlacklist (Some "") s)))
  ∧ ∃ s1,
      logoutUser {| cookies_refreshToken := cookie;
                    headers_authorization := None |} res s
      = (Returned {| p_statusCode := 200; p_user := None; p_jwtToken := None;
                     p_refreshTokenData := None; p_errors := [] |},
         res_cookie "refreshToken" "" cookieExpired res, s1)
      ∧ blacklist s1 = blacklist s.
Proof.
  split; [|split].
  - intros scheme rest Hlen. unfold logoutUser. cbn -[slice].
    by rewrite <- Hlen, slice_app.
  - intros header Hlen. unfold logoutUser. cbn -[slice].
    by rewrite (slice_short 7 header Hlen).
  - eexists. split; [reflexivity|]. simpl. by destruct cookie.
Qed.

Lemma shadowed_event (token : string) (now : Z) (s : Store) (ev : StoreEvent) :
  before now ev → shadowed token now s → shadowed token now (store_event s ev).
Proof.
  intros Hbefore Hs payload Hpayload.
  destruct (Hs payload Hpayload) as [?|Hin]; [by left|].
  destruct ev as [record|[t|]|oldToken newRecord|[t|]|t]; simpl in *;
    try (by right).
  - right. unfold whitelistReplace.
    by destruct (whitelist s !! oldToken).
  - destruct (jwt_verify t) as [payload'|] eqn:Hdec; [|by right].
    right. simpl. destruct (decide (t = token)) as [->|Hne].
    + rewrite Hpayload in Hdec. injection Hdec as <-. apply lookup_insert_eq.
    + by rewrite lookup_insert_ne.
  - destruct (decide (t < jwt_expiresAt payload)) as [Hlt|Hge]; [|left; lia].
    right. by apply map_lookup_filter_Some.
Qed.

Lemma shadowed_history (token : string) (now : Z) (history : list StoreEvent)
    (s : Store) :
  Forall (before now) history → shadowed token now s →
  shadowed token now (fold_left store_event history s).
Proof.
  intros Hbefore. revert s.
  induction Hbefore as [|ev history Hev _ IH]; intros s Hs; [done|].
  simpl. apply IH. by apply shadowed_event.
Qed.

Lemma shadowed_unauthenticated (users : gmap string User) (token : string)
    (now : Z) (s : Store) :
  shadowed token now s →
  deriveAuthStatus users s (Some token) now
  = {| isAuthenticated := false; userId := None |}.
Proof.
  intros Hs. unfold deriveAuthStatus, verifyAccessToken.
  destruct (jwt_verify token) as [payload|] eqn:Hdec; [|done].
  destruct (Z.ltb_spec now (jwt_expiresAt payload)) as [Hlive|]; [|done].
  destruct (users !! jwt_userId payload) as [user|]; [|done].
  case_decide; [|done].
  destruct (Hs payload Hdec) as [?|Hin]; [lia|].
  unfold blacklistContains. rewrite Hin.
  by destruct (Z.ltb_spec now (jwt_expiresAt payload)); [|lia].
Qed.

(** C6. After a logout that presented the access token [token] as
    [Bearer token], every later check of that token is unauthenticated,
    whatever happened to the store and to the users in between: the
    gate answers 401 [Unauthenticated] without running the operation.
    This holds while the token has not expired by itself: a token that
    still verifies is found in the blacklist. *)
Theorem logout_revokes_access_token (users : gmap string User) (token : string)
    (cookie : option string) (res : Res) (s : Store)
    (history : list StoreEvent) (now : Z) :
  Forall (before now) history →
  let s1 :=
    (logoutUser {| cookies_refreshToken := cookie;
                   headers_authorization := Some ("Bearer " ++ token) |} res s).2 in
  let s2 := fold_left store_event history s1 in
  deriveAuthStatus users s2 (Some token) now
  = {| isAuthenticated := false; userId := None |}
  ∧ (∀ payload, verifyAccessToken token now = Some payload →
       blacklistContains now token s2 = true)
  ∧ ∀ (W A : Type) (operation : Operation W A) (w : W),
      runIfAuthenticated (deriveAuthStatus users s2 (Some token) now) operation w
      = ({| data := None; errors := [Unauthenticated]; statusCode := 401 |}, w).
Proof.
  intros Hbefore s1 s2.
  assert (Hs2 : shadowed token now s2).
  { apply shadowed_history; [done|].
    intros payload Hpayload. right. subst s1. unfold logoutUser.
    cbn -[slice String.app]. rewrite (slice_app "Bearer " token : slice 7 _ = _).
    rewrite Hpayload. destruct cookie; simpl; apply lookup_insert_eq. }
  split; [|split].
  - by apply shadowed_unauthenticated.
  - intros payload Hv. unfold verifyAccessToken in Hv.
    destruct (jwt_verify token) as [payload'|] eqn:Hdec; [|done].
    destruct (Z.ltb_spec now (jwt_expiresAt payload')) as [Hlive|]; [|done].
    destruct (Hs2 payload' Hdec) as [?|Hin]; [lia|].
    unfold blacklistContains. rewrite Hin. by apply Z.ltb_lt.
  - intros W A operation w.
    by rewrite (shadowed_unauthenticated users token now s2 Hs2).
Qed.

(** *** Password changes *)


(** *** Signing failures *)

(** C8, as the code has it. When signing fails, [generateJWTToken] has
    no error result to give: the failure is thrown.  [loginUser] runs it
    inside its [try] and recovers the failure into a result of the
    request: status 500, null user, empty token, null refresh token and
    the failure's message; no refresh token is whitelisted and no cookie
    is set. *)
Theorem loginUser_recovers_signing_failure (username password : string) (now : Z)
    (random : string) (res : Res) (s : Store) (w w' : gmap string User)
    (r : ServiceResponse User) (user : User) (err : Exn) :
  usersService_loginUser username password w = (Returned r, w') →
  data r = Some user →
  jwt_sign {| jwt_userId := _id user;
              jwt_passwordHashFingerprint := fingerprint (passwordHash user);
              issuedAt := now;
              jwt_expiresAt := now + JWT_TOKEN_EXPIRATION_IN_SECONDS * 1000 |}
  = Throws err →
  generateJWTToken (_id user) (passwordHash user) now = Throws err
  ∧ loginUser username password now random res s w
    = (Returned {| p_statusCode := 500; p_user := None; p_jwtToken := Some "";
                   p_refreshTokenData := Some None;
                   p_errors := [ {| message := exn_message err |} ] |},
       res, s, w').
Proof.
  intros Hlogin Hdata Hsign. split; [exact Hsign|].
  unfold loginUser. rewrite Hlogin, Hdata.
  unfold generateJWTToken. by rewrite Hsign.
Qed.

(** *** The movie queries *)

Lemma omap_length_le {A B} (f : A → option B) (l : list A) :
  (length (omap f l) <= length l)%nat.
Proof.
  induction l as [|x l IH]; simpl; [done|].
  change (omap f l) with (list_omap A B f l) in IH.
  destruct (f x); simpl; lia.
Qed.

Lemma fetchInto_returns (arrival : list string) (movies : list TmdbData) :
  (∀ movieId, movieId ∈ arrival →
     ∃ response, tmdbFetch ("/movie/" ++ movieId) = Returned response) →
  fetchInto arrival movies = (Returned tt, (movies ++ omap fetched arrival)%list).
Proof.
  revert movies. induction arrival as [|movieId rest IH]; intros movies Hall.
  - simpl. by rewrite app_nil_r.
  - destruct (Hall movieId) as [response Hresponse]; [by left|].
    cbn -[String.app]. unfold fetched at 1. rewrite Hresponse.
    rewrite IH by (intros; apply Hall; by right).
    destruct (data response); [|done].
    by rewrite <- app_assoc.
Qed.

(** On an operation that returns an envelope the two renderings of the
    gate are one. *)
Lemma runIfAuthenticatedAny_envelope {W A} (authStatus : AuthStatus)
    (operation : Operation W A) (w : W) :
  runIfAuthenticated authStatus operation w
  = let '(result, w') := runIfAuthenticatedAny authStatus operation w in
    (match result with
     | inl r => {| data := None; errors := errors r; statusCode := statusCode r |}
     | inr r => r
     end, w').
Proof.
  unfold runIfAuthenticated, runIfAuthenticatedAny.
  destruct (isAuthenticated authStatus); [|done].
  by destruct (operation w) as [[r|err] w'].
Qed.

(** The operation on its own: every callback has pushed its movie, if it
    had one, and the value is one [undefined] for each id. *)
Lemma moviesOperation_returns (arrival : list string) :
  (∀ movieId, movieId ∈ arrival →
     ∃ response, tmdbFetch ("/movie/" ++ movieId) = Returned response) →
  moviesOperation arrival [] = (Returned (map (λ _, tt) arrival), omap fetched arrival).
Proof.
  intros Hall. unfold moviesOperation. by rewrite fetchInto_returns.
Qed.

(** Whatever the gate hands back, line 139 or the lines after it throw:
    [movies] has no input on which it returns. *)
Lemma movies_never_returns (arrival : list string) (authStatus : AuthStatus)
    (payload : MoviesPayload) :
  movies arrival authStatus ≠ Returned payload.
Proof.
  unfold movies, runIfAuthenticatedAny, moviesOperation.
  destruct (isAuthenticated authStatus); [|done].
  by destruct (fetchInto arrival []) as [[u|err] found].
Qed.


(** *** What the resolvers do with the gate's envelope *)

(** The gate and [loginUser] recover failures into an envelope: the
    gate wraps a failure thrown by the operation as
    status 500, and [loginUser] returns on every input, with status 500
    when the credential check throws.  The gated resolvers then raise the
    envelope's errors to the GraphQL layer: whenever the gate's envelope
    has an error, [discover] and [updateUser] throw, an
    [AuthenticationError] for status 401 and an [ApolloError] otherwise,
    with the message of the first error.  An unauthenticated [discover]
    and an [updateUser] for another user's id therefore throw
    [AuthenticationError]. *)
Theorem gated_resolvers_raise_errors (authStatus : AuthStatus) (page : option Z)
    (restArgs : list (string * string)) (targetUserId : string)
    (newUserData : NewUserData) (username password : string) (now : Z)
    (random : string) (res : Res) (s : Store) (w : gmap string User) :
  (∀ (W A : Type) (operation : Operation W A) (v v' : W) (err : Exn),
     isAuthenticated authStatus = true →
     operation v = (Throws err, v') →
     runIfAuthenticated authStatus operation v
     = ({| data := None; errors := [ {| message := exn_message err |} ];
           statusCode := 500 |}, v'))
  ∧ (∃ payload,
       (loginUser username password now random res s w).1.1.1 = Returned payload)
  ∧ (∀ err w',
       usersService_loginUser username password w = (Throws err, w') →
       loginUser username password now random res s w
       = (Returned {| p_statusCode := 500; p_user := None; p_jwtToken := Some "";
                      p_refreshTokenData := Some None;
                      p_errors := [ {| message := exn_message err |} ] |},
          res, s, w'))
  ∧ (∀ e rest,
       errors (runIfAuthenticated authStatus
                 (tmdbOperation (discoverPath page restArgs)) tt).1 = e :: rest →
       discover page restArgs authStatus
       = Throws (if statusCode (runIfAuthenticated authStatus
                                  (tmdbOperation (discoverPath page restArgs)) tt).1
                    =? 401
                 then AuthenticationError (message e)
                 else ApolloError (message e)))
  ∧ (∀ e rest,
       errors (runIfAuthorized authStatus targetUserId
                 (usersService_updateUser targetUserId newUserData) w).1 = e :: rest →
       (updateUser targetUserId newUserData authStatus w).1
       = Throws (if statusCode (runIfAuthorized authStatus targetUserId
                                  (usersService_updateUser targetUserId newUserData)
                                  w).1
                    =? 401
                 then AuthenticationError (message e)
                 else ApolloError (message e)))
  ∧ (isAuthenticated authStatus = false →
     discover page restArgs authStatus
     = Throws (AuthenticationError (message Unauthenticated)))
  ∧ (userId authStatus ≠ Some targetUserId →
     updateUser targetUserId newUserData authStatus w
     = (Throws (AuthenticationError (message Unauthorized)), w)).
Proof.
  repeat split.
  - intros W A operation v v' err Hauth Hthrown.
    unfold runIfAuthenticated. by rewrite Hauth, Hthrown.
  - unfold loginUser.
    destruct (usersService_loginUser username password w) as [[r|err] w'];
      [|by eexists].
    destruct (data r) as [user|]; [|by eexists].
    destruct (generateJWTToken _ _ _); by eexists.
  - intros err w' Hthrown. unfold loginUser. by rewrite Hthrown.
  - intros e rest He. unfold discover.
    destruct (runIfAuthenticated _ _ _) as [r u]. simpl in *.
    unfold raiseErrors. by rewrite He.
  - intros e rest He. unfold updateUser.
    destruct (runIfAuthorized _ _ _ _) as [r w']. simpl in *.
    unfold userPayload, raiseErrors. by rewrite He.
  - intros Hno. unfold discover, runIfAuthenticated. by rewrite Hno.
  - intros Hne. unfold updateUser, runIfAuthorized.
    by destruct (decide (userId authStatus = Some targetUserId)).
Qed.

(** [runIfAuthorized] wraps the failure of an operation it has admitted
    just as [runIfAuthenticated] does. *)
Lemma runIfAuthorized_wraps_failure {W A} (authStatus : AuthStatus)
    (targetUserId : string) (operation : Operation W A) (v v' : W) (err : Exn) :
  userId authStatus = Some targetUserId →
  isAuthenticated authStatus = true →
  operation v = (Throws err, v') →
  runIfAuthorized authStatus targetUserId operation v
  = ({| data := None; errors := [ {| message := exn_message err |} ];
        statusCode := 500 |}, v').
Proof.
  intros Hself Hauth Hthrown. unfold runIfAuthorized, runIfAuthenticated.
  case_decide; [|done]. by rewrite Hauth, Hthrown.
Qed.


(** *** Rotation *)

(** The four store accesses, run back to back, are [refreshAllTokens]. *)
Lemma refresh_step_sequential (users : gmap string User) (t : string) (now : Z)
    (random : string) (s : Store) :
  let step := λ cfg : Store * RefreshPhase,
    refresh_step users t now random cfg.1 cfg.2 in
  step (step (step (step (s, Presented))))
  = ((refreshAllTokens users (Some t) now random s).2,
     Finished (refreshAllTokens users (Some t) now random s).1).
Proof.
  cbn -[whitelistLookup whitelistReplace whitelistRemove generateJWTToken
        generateRefreshTokenData].
  destruct (whitelistLookup now t s) as [record|]; [|done].
  cbn -[whitelistLookup whitelistReplace whitelistRemove generateJWTToken
        generateRefreshTokenData].
  destruct (users !! rt_userId record) as [user|]; [|done].
  case_decide; [|done].
  cbn -[whitelistLookup whitelistReplace whitelistRemove generateJWTToken
        generateRefreshTokenData].
  destruct (whitelistReplace t _ s) as [s'|]; [|done].
  cbn -[whitelistLookup whitelistReplace whitelistRemove generateJWTToken
        generateRefreshTokenData].
  by destruct (generateJWTToken _ _ _).
Qed.




Section Rotation.
Variable users : gmap string User.
Variable t : string.
Variable record : RefreshTokenData.
Variable user : User.
Hypothesis Huser : users !! rt_userId record = Some user.
Hypothesis Hfingerprint :
  rt_passwordHashFingerprint record = fingerprint (passwordHash user).
Hypothesis Hsigner : ∀ payload, ∃ jwtToken, jwt_sign payload = Returned jwtToken.







End Rotation.




(** *** More on the movie queries *)

Lemma omap_length_eq {A B} (f : A → option B) (l : list A) :
  length (omap f l) = length l ↔ ∀ x, x ∈ l → is_Some (f x).
Proof.
  induction l as [|x l IH].
  - split; [|done]. intros _ y Hy. by apply elem_of_nil in Hy.
  - pose proof (omap_length_le f l) as Hle.
    change (omap f (x :: l)) with (match f x with
                                   | Some y => y :: omap f l
                                   | None => omap f l
                                   end).
    destruct (f x) as [y|] eqn:Hfx; simpl.
    + split.
      * intros Hlen y' [->|Hin]%elem_of_cons; [by rewrite Hfx|].
        apply IH; [lia | done].
      * intros Hall. f_equal. apply IH. intros y' Hin. apply Hall. by right.
    + split; [lia|]. intros Hall.
      destruct (Hall x) as [y Hy]; [by left | congruence].
Qed.

(** X7. When the fetches all settle with a response, the [movies] array
    the operation has filled holds as many movies as ids were requested
    exactly when every id's response carried data. *)
Theorem movies_array_full_iff (movieIds arrival : list string) :
  arrival ≡ₚ movieIds →
  (∀ movieId, movieId ∈ movieIds →
     ∃ response, tmdbFetch ("/movie/" ++ movieId) = Returned response) →
  ∃ found,
    moviesOperation arrival [] = (Returned (map (λ _, tt) arrival), found)
    ∧ (length found = length movieIds
       ↔ ∀ movieId, movieId ∈ movieIds → is_Some (fetched movieId)).
Proof.
  intros Hperm Hall. exists (omap fetched arrival). split.
  - apply moviesOperation_returns. intros movieId Hin. apply Hall. by rewrite <- Hperm.
  - rewrite <- (Permutation_length Hperm), omap_length_eq.
    split; intros H movieId Hin; apply H; [by rewrite Hperm | by rewrite <- Hperm].
Qed.

(** X8. The order in which the fetches settle decides the order of the
    collected movies and nothing else: two runs of the operation for the
    same ids fill the [movies] array with the same movies up to order. *)
Theorem movies_array_settle_order (arrival1 arrival2 : list string) :
  arrival1 ≡ₚ arrival2 →
  (∀ movieId, movieId ∈ arrival1 →
     ∃ response, tmdbFetch ("/movie/" ++ movieId) = Returned response) →
  ∃ found1 found2,
    moviesOperation arrival1 [] = (Returned (map (λ _, tt) arrival1), found1)
    ∧ moviesOperation arrival2 [] = (Returned (map (λ _, tt) arrival2), found2)
    ∧ found1 ≡ₚ found2
    ∧ length found1 = length found2.
Proof.
  intros Hperm Hall.
  exists (omap fetched arrival1), (omap fetched arrival2).
  assert (Hfound : omap fetched arrival1 ≡ₚ omap fetched arrival2) by (by rewrite Hperm).
  split; [by apply moviesOperation_returns|]. split; [|split; [done|by rewrite Hfound]].
  apply moviesOperation_returns. intros movieId Hin. apply Hall. by rewrite Hperm.
Qed.

Lemma fetchInto_throws (before after : list string) (movieId : string) (err : Exn)
    (movies : list TmdbData) :
  (∀ id, id ∈ before → ∃ response, tmdbFetch ("/movie/" ++ id) = Returned response) →
  tmdbFetch ("/movie/" ++ movieId) = Throws err →
  fetchInto (before ++ movieId :: after) movies
  = (Throws err, (movies ++ omap fetched before)%list).
Proof.
  revert movies. induction before as [|id before IH]; intros movies Hall Hthrows.
  - cbn -[String.app]. by rewrite Hthrows, app_nil_r.
  - destruct (Hall id) as [response Hresponse]; [by left|].
    cbn -[String.app]. unfold fetched at 1. rewrite Hresponse.
    rewrite IH by (try done; intros; apply Hall; by right).
    destruct (data response); [|done].
    by rewrite <- app_assoc.
Qed.

(** X9. One fetch that fails fails the whole query: for an authenticated
    caller, when the first fetch to fail throws [err], [movies] throws an
    [ApolloError] with the message of [err], whatever the other fetches
    brought. *)
Theorem movies_fails_with_first_failure (before after : list string)
    (movieId : string) (err : Exn) (authStatus : AuthStatus) :
  isAuthenticated authStatus = true →
  (∀ id, id ∈ before → ∃ response, tmdbFetch ("/movie/" ++ id) = Returned response) →
  tmdbFetch ("/movie/" ++ movieId) = Throws err →
  movies (before ++ movieId :: after) authStatus
  = Throws (ApolloError (exn_message err)).
Proof.
  intros Hauth Hall Hthrows. unfold movies, runIfAuthenticatedAny, moviesOperation.
  rewrite Hauth. by rewrite (fetchInto_throws before after movieId err).
Qed.

(** X6. [movie] and the operation of [movies] on one id: when [movie]
    returns data, the operation collects that one movie; when the
    response has errors and no data, [movie] throws while the operation
    collects nothing and does not fail. *)
Theorem movie_and_movies_array_of_one_id (movieId : string) (authStatus : AuthStatus) :
  (∀ found,
     movie movieId authStatus = Returned (Some found) →
     moviesOperation [movieId] [] = (Returned [tt], [found]))
  ∧ (∀ response e rest,
       isAuthenticated authStatus = true →
       tmdbFetch ("/movie/" ++ movieId) = Returned response →
       errors response = e :: rest →
       data response = None →
       movie movieId authStatus
       = Throws (if statusCode response =? 401 then AuthenticationError (message e)
                 else ApolloError (message e))
       ∧ moviesOperation [movieId] [] = (Returned [tt], [])).
Proof.
  split.
  - unfold movie, runIfAuthenticated, tmdbOperation, moviesOperation.
    intros found. destruct (isAuthenticated authStatus); [|done].
    cbn -[String.app].
    destruct (tmdbFetch ("/movie/" ++ movieId)) as [response|err]; [|done].
    unfold raiseErrors. destruct (errors response); [|done].
    intros [= ->]. done.
  - intros response e rest Hauth Hresponse Herrors Hdata.
    unfold movie, runIfAuthenticated, tmdbOperation, moviesOperation.
    rewrite Hauth. cbn -[String.app]. rewrite Hresponse, Hdata.
    unfold raiseErrors. by rewrite Herrors.
Qed.

(** *** The other gated resolvers *)

(** X11. [deleteUser], [addFavoriteMovieToUser] and
    [removeFavoriteMovieFromUser] for an id that is not the caller's throw
    an [AuthenticationError] and leave the users as they were. *)
Theorem user_mutations_refuse_other_users (targetUserId movieId : string)
    (authStatus : AuthStatus) (w : gmap string User) :
  userId authStatus ≠ Some targetUserId →
  deleteUser targetUserId authStatus w
  = (Throws (AuthenticationError (message Unauthorized)), w)
  ∧ addFavoriteMovieToUser targetUserId movieId authStatus w
    = (Throws (AuthenticationError (message Unauthorized)), w)
  ∧ removeFavoriteMovieFromUser targetUserId movieId authStatus w
    = (Throws (AuthenticationError (message Unauthorized)), w).
Proof.
  intros Hne.
  unfold deleteUser, addFavoriteMovieToUser, removeFavoriteMovieFromUser,
    runIfAuthorized.
  by destruct (decide (userId authStatus = Some targetUserId)).
Qed.

Lemma userPayload_Returned (r : ServiceResponse User) (payload : Payload) :
  userPayload r = Returned payload →
  errors r = []
  ∧ payload = {| p_statusCode := statusCode r; p_user := data r; p_jwtToken := None;
                 p_refreshTokenData := None; p_errors := [] |}.
Proof.
  unfold userPayload, raiseErrors. destruct (errors r) as [|e rest] eqn:He; [|done].
  by intros [= <-].
Qed.

(** X12. Whatever the gate and the users service answer, a payload that
    [updateUser], [deleteUser], [addFavoriteMovieToUser] or
    [removeFavoriteMovieFromUser] returns has an empty [errors] list: an
    envelope with errors never comes back as a payload. *)
Theorem user_mutations_return_no_errors (targetUserId movieId : string)
    (newUserData : NewUserData) (authStatus : AuthStatus) (w : gmap string User)
    (payload : Payload) :
  (updateUser targetUserId newUserData authStatus w).1 = Returned payload
  ∨ (deleteUser targetUserId authStatus w).1 = Returned payload
  ∨ (addFavoriteMovieToUser targetUserId movieId authStatus w).1 = Returned payload
  ∨ (removeFavoriteMovieFromUser targetUserId movieId authStatus w).1 = Returned payload →
  p_errors payload = [] ∧ p_jwtToken payload = None ∧ p_refreshTokenData payload = None.
Proof.
  unfold updateUser, deleteUser, addFavoriteMovieToUser, removeFavoriteMovieFromUser.
  intros [H|[H|[H|H]]];
    destruct (runIfAuthorized _ _ _ _) as [r w'];
    apply userPayload_Returned in H as [_ ->]; done.
Qed.

(** X10. Without authentication the queries [movie], [movies] and
    [users] throw an [AuthenticationError], and [users] leaves the users
    as they were.  So does [search] for a query of code units below 256;
    a query that [encodeURI] refuses fails with the [URIError] instead,
    as line 78 runs before the gate is asked. *)
Theorem queries_refuse_unauthenticated (query movieId : string) (page : option Z)
    (arrival : list string) (authStatus : AuthStatus) (w : gmap string User) :
  isAuthenticated authStatus = false →
  search (Text query) page authStatus
  = Throws (AuthenticationError (message Unauthenticated))
  ∧ search Malformed page authStatus = Throws uriMalformed
  ∧ movie movieId authStatus = Throws (AuthenticationError (message Unauthenticated))
  ∧ movies arrival authStatus = Throws (AuthenticationError (message Unauthenticated))
  ∧ users authStatus w = (Throws (AuthenticationError (message Unauthenticated)), w).
Proof.
  intros Hno.
  unfold search, movie, movies, users, runIfAuthenticated, runIfAuthenticatedAny.
  by rewrite Hno.
Qed.

(** *** The session mutations *)

(** X13. A login is all or nothing.  [loginUser] always returns; either
    the payload has the user, an access token and a refresh token record,
    that record's token is the value of the one cookie added and the
    record is what was added to the whitelist, or the payload has none of
    the three and neither the cookies nor the store have changed. *)
Theorem loginUser_all_or_nothing (username password : string) (now : Z)
    (random : string) (res : Res) (s : Store) (w : gmap string User) :
  ∃ payload res' s' w',
    loginUser username password now random res s w = (Returned payload, res', s', w')
    ∧ ((∃ user jwtToken record,
          p_user payload = Some user
          ∧ p_jwtToken payload = Some jwtToken
          ∧ p_refreshTokenData payload = Some (Some record)
          ∧ generateJWTToken (_id user) (passwordHash user) now = Returned jwtToken
          ∧ res' = res_cookie "refreshToken" (refreshToken record)
                     (cookieSession (REFRESH_TOKEN_EXPIRATION_IN_SECONDS * 1000)) res
          ∧ s' = addRefreshTokenToWhitelist record s)
       ∨ (p_user payload = None
          ∧ p_jwtToken payload = Some ""
          ∧ p_refreshTokenData payload = Some None
          ∧ res' = res ∧ s' = s)).
Proof.
  unfold loginUser.
  destruct (usersService_loginUser username password w) as [[r|err] w'].
  - destruct (data r) as [user|].
    + destruct (generateJWTToken (_id user) (passwordHash user) now)
        as [jwtToken|err] eqn:Hjwt.
      * do 4 eexists. split; [reflexivity|]. left.
        exists user, jwtToken. eexists. by repeat split.
      * do 4 eexists. split; [reflexivity|]. by right.
    + do 4 eexists. split; [reflexivity|]. by right.
  - do 4 eexists. split; [reflexivity|]. by right.
Qed.

(** X14. The three session mutations only ever add to the cookies of the
    response, at most one cookie each, and every cookie they add is named
    [refreshToken] and is [httpOnly], [secure] and [sameSite: 'none']. *)
Theorem session_mutations_add_session_cookies (users : gmap string User)
    (username password : string) (req : Req) (now : Z) (random : string)
    (res : Res) (s : Store) (w : gmap string User) :
  (∃ added,
     (loginUser username password now random res s w).1.1.2 = (res ++ added)%list
     ∧ (length added <= 1)%nat ∧ Forall sessionCookie added)
  ∧ (∃ added,
       (silentRefresh users req now random res s).1.2 = (res ++ added)%list
       ∧ (length added <= 1)%nat ∧ Forall sessionCookie added)
  ∧ (∃ cookie,
       (logoutUser req res s).1.2 = (res ++ [cookie])%list
       ∧ sessionCookie cookie ∧ cookie_value cookie = "").
Proof.
  split; [|split].
  - unfold loginUser.
    destruct (usersService_loginUser username password w) as [[r|err] w'];
      [|exists []; rewrite app_nil_r; repeat split; [simpl; lia | constructor]].
    destruct (data r) as [user|]; [|exists []; rewrite app_nil_r; repeat split; [simpl; lia | constructor]].
    cbv zeta. destruct (generateJWTToken (_id user) (passwordHash user) now);
      [|exists []; rewrite app_nil_r; repeat split; [simpl; lia | constructor]].
    eexists [_]. split; [reflexivity|]. split; [done|].
    by repeat constructor.
  - unfold silentRefresh.
    destruct (refreshAllTokens users (cookies_refreshToken req) now random s)
      as [[r|err] s']; simpl; [|exists []; rewrite app_nil_r; repeat split; [simpl; lia | constructor]].
    destruct (rr_refreshTokenData r);
      (eexists [_]; split; [reflexivity|]; split; [done|]; by repeat constructor).
  - eexists. split; [reflexivity|]. by repeat split.
Qed.

(** X15. Login, then silent refresh.  When the users service has the
    user it returned under his id and the signer signs, the cookie a
    successful [loginUser] sets is accepted by a later [silentRefresh]
    within the lifetime of the refresh token: status 200, the same user,
    and a new cookie. *)
Theorem login_then_silentRefresh (username password : string) (now now' : Z)
    (random random' : string) (res res' : Res) (s : Store)
    (w w' : gmap string User) (r : ServiceResponse User) (user : User)
    (header : option string) :
  usersService_loginUser username password w = (Returned r, w') →
  data r = Some user →
  w' !! _id user = Some user →
  (∀ payload, ∃ jwtToken, jwt_sign payload = Returned jwtToken) →
  now' < now + REFRESH_TOKEN_EXPIRATION_IN_SECONDS * 1000 →
  random' ≠ random →
  ∃ payload cookie s1 jwtToken s2,
    loginUser username password now random res s w
    = (Returned payload, (res ++ [cookie])%list, s1, w')
    ∧ silentRefresh w'
        {| cookies_refreshToken := Some (cookie_value cookie);
           headers_authorization := header |} now' random' res' s1
      = (Returned {| p_statusCode := 200; p_user := Some user;
                     p_jwtToken := Some jwtToken; p_refreshTokenData := None;
                     p_errors := [] |},
         res_cookie "refreshToken" random'
           (cookieSession (REFRESH_TOKEN_EXPIRATION_IN_SECONDS * 1000)) res',
         s2).
Proof.
  intros Hlogin Hdata Huser Hsigner Hlive Hfresh.
  destruct (Hsigner {| jwt_userId := _id user;
                       jwt_passwordHashFingerprint := fingerprint (passwordHash user);
                       issuedAt := now;
                       jwt_expiresAt := now + JWT_TOKEN_EXPIRATION_IN_SECONDS * 1000 |})
    as [jwtToken Hsigned].
  destruct (Hsigner {| jwt_userId := _id user;
                       jwt_passwordHashFingerprint := fingerprint (passwordHash user);
                       issuedAt := now';
                       jwt_expiresAt := now' + JWT_TOKEN_EXPIRATION_IN_SECONDS * 1000 |})
    as [jwtToken' Hsigned'].
  unfold loginUser. rewrite Hlogin, Hdata. unfold generateJWTToken at 1.
  rewrite Hsigned. do 3 eexists. exists jwtToken'. eexists.
  split; [reflexivity|].
  unfold silentRefresh, refreshAllTokens, whitelistLookup, whitelistReplace,
    addRefreshTokenToWhitelist, whitelistAdd, generateRefreshTokenData,
    generateJWTToken.
  cbn. rewrite lookup_insert_eq. cbn.
  destruct (Z.ltb_spec now' (now + REFRESH_TOKEN_EXPIRATION_IN_SECONDS * 1000));
    [|lia].
  cbn. rewrite Huser. case_decide; [|done].
  cbn. rewrite Hsigned'. reflexivity.
Qed.

(** X16. Logout, then silent refresh.  After [logoutUser] a
    [silentRefresh] that presents the refresh token of the logout is
    answered with status 400 and [InvalidRefreshToken], and the store
    stays as the logout left it. *)
Theorem logout_then_silentRefresh (users : gmap string User) (token : string)
    (header header' : option string) (res res' : Res) (s : Store) (now : Z)
    (random : string) :
  ∃ s1,
    (logoutUser {| cookies_refreshToken := Some token;
                   headers_authorization := header |} res s).2 = s1
    ∧ silentRefresh users
        {| cookies_refreshToken := Some token; headers_authorization := header' |}
        now random res' s1
      = (Returned {| p_statusCode := 400; p_user := None; p_jwtToken := Some "";
                     p_refreshTokenData := None;
                     p_errors := [InvalidRefreshToken] |},
         res_cookie "refreshToken" "" cookieExpired res', s1).
Proof.
  eexists. split; [reflexivity|].
  apply silentRefresh_not_found. intros t [= <-].
  apply whitelistLookup_None. left. simpl. apply lookup_delete_eq.
Qed.

(** *** What a query returns *)

(** X5. [discover] and [search] return only what came with data: when
    either returns, the gate's envelope had no errors and its [data] was
    not [null]; on an envelope with neither errors nor data they throw,
    where [movie] returns the [null].  A [search] that returns had a
    query [encodeURI] did not refuse. *)
Theorem page_queries_need_data (query : QueryText) (movieId : string)
    (page : option Z) (restArgs : list (string * string)) (authStatus : AuthStatus) :
  (∀ payload,
     discover page restArgs authStatus = Returned payload →
     errors (runIfAuthenticated authStatus
               (tmdbOperation (discoverPath page restArgs)) tt).1 = []
     ∧ is_Some (data (runIfAuthenticated authStatus
                        (tmdbOperation (discoverPath page restArgs)) tt).1))
  ∧ (∀ payload,
       search query page authStatus = Returned payload →
       ∃ text,
         query = Text text
         ∧ errors (runIfAuthenticated authStatus
                     (tmdbOperation (searchPath text page)) tt).1 = []
         ∧ is_Some (data (runIfAuthenticated authStatus
                            (tmdbOperation (searchPath text page)) tt).1))
  ∧ (errors (runIfAuthenticated authStatus
               (tmdbOperation ("/movie/" ++ movieId)) tt).1 = [] →
     movie movieId authStatus
     = Returned (data (runIfAuthenticated authStatus
                         (tmdbOperation ("/movie/" ++ movieId)) tt).1)).
Proof.
  split; [|split].
  - intros payload. unfold discover.
    destruct (runIfAuthenticated _ _ _) as [r u]. simpl.
    unfold raiseErrors. destruct (errors r); [|done].
    destruct (data r) as [d|]; [by eauto | done].
  - intros payload. unfold search. destruct query as [text|]; [|done].
    intros Hreturned. exists text. split; [done|]. revert Hreturned.
    destruct (runIfAuthenticated _ _ _) as [r u]. simpl.
    unfold raiseErrors. destruct (errors r); [|done].
    destruct (data r) as [d|]; [by eauto | done].
  - unfold movie. destruct (runIfAuthenticated _ _ _) as [r u]. simpl.
    unfold raiseErrors. by intros ->.
Qed.

End Core.

(** ** Patterns *)

Lemma nullable_Matches (r : Regex) : nullable r = true ↔ Matches r [].
Proof.
  induction r as [| |p|r1 IH1 r2 IH2|r1 IH1 r2 IH2|r IH]; simpl.
  - split; [done|]. inversion 1.
  - split; [constructor|done].
  - split; [done|]. inversion 1.
  - rewrite andb_true_iff, IH1, IH2. split.
    + intros [H1 H2]. apply (MSeq r1 r2 [] [] H1 H2).
    + inversion 1 as [| |? ? s1 s2 H1 H2 Hr Hs| | | |]; subst.
      by destruct (app_eq_nil _ _ Hs) as [-> ->].
  - rewrite orb_true_iff, IH1, IH2. split.
    + intros [H|H]; [by apply MAltL | by apply MAltR].
    + inversion 1; subst; [by left | by right].
  - split; [constructor|done].
Qed.

(** A match of [r*] on a string that starts with [c] starts with a match
    of [r] that takes [c]. *)
Lemma Matches_Star_cons (r : Regex) (c : ascii) (s : list ascii) :
  Matches (Star r) (c :: s) →
  ∃ s1 s2, s = (s1 ++ s2)%list ∧ Matches r (c :: s1) ∧ Matches (Star r) s2.
Proof.
  intros H. remember (Star r) as r' eqn:Hr. remember (c :: s) as l eqn:Hl.
  induction H as [| | | | | |r0 s1 s2 H1 _ H2 IH2]; try discriminate.
  injection Hr as ->. destruct s1 as [|c' s1].
  - simpl in Hl. by apply IH2.
  - simpl in Hl. injection Hl as -> <-. by exists s1, s2.
Qed.

Lemma deriv_Matches (r : Regex) (c : ascii) (s : list ascii) :
  Matches (deriv c r) s ↔ Matches r (c :: s).
Proof.
  revert s. induction r as [| |p|r1 IH1 r2 IH2|r1 IH1 r2 IH2|r IH]; intros s; simpl.
  - split; inversion 1.
  - split; inversion 1.
  - destruct (p c) eqn:Hp; split.
    + inversion 1. by constructor.
    + inversion 1; subst. constructor.
    + inversion 1.
    + inversion 1; subst. congruence.
  - assert (Hseq : Matches (Seq (deriv c r1) r2) s
                   ↔ ∃ s1 s2, s = (s1 ++ s2)%list ∧ Matches r1 (c :: s1) ∧ Matches r2 s2).
    { split.
      - inversion 1 as [| |? ? s1 s2 H1 H2| | | |]; subst.
        exists s1, s2. by rewrite <- IH1.
      - intros (s1 & s2 & -> & H1 & H2). constructor; [by apply IH1 | done]. }
    assert (Hgoal : Matches (Seq r1 r2) (c :: s)
                    ↔ (∃ s1 s2, s = (s1 ++ s2)%list ∧ Matches r1 (c :: s1) ∧ Matches r2 s2)
                      ∨ (Matches r1 [] ∧ Matches r2 (c :: s))).
    { split.
      - inversion 1 as [| |? ? s1 s2 H1 H2 Hr Hs| | | |]; subst.
        destruct s1 as [|c' s1]; simpl in Hs.
        + right. by subst.
        + injection Hs as -> <-. left. by exists s1, s2.
      - intros [(s1 & s2 & -> & H1 & H2)|[H1 H2]].
        + apply (MSeq r1 r2 (c :: s1) s2 H1 H2).
        + apply (MSeq r1 r2 [] (c :: s) H1 H2). }
    rewrite Hgoal. destruct (nullable r1) eqn:Hn.
    + split.
      * inversion 1; subst; [left; by apply Hseq | right].
        split; [by apply nullable_Matches | by apply IH2].
      * intros [H|[_ H]]; [apply MAltL; by apply Hseq | apply MAltR; by apply IH2].
    + rewrite Hseq. split; [by left|].
      intros [H|[H _]]; [done|].
      apply nullable_Matches in H. congruence.
  - split.
    + inversion 1; subst; [apply MAltL; by apply IH1 | apply MAltR; by apply IH2].
    + inversion 1; subst; [apply MAltL; by apply IH1 | apply MAltR; by apply IH2].
  - split.
    + inversion 1 as [| |? ? s1 s2 H1 H2| | | |]; subst.
      apply (MStarCons r (c :: s1) s2); [by apply IH | done].
    + intros H. destruct (Matches_Star_cons r c s H) as (s1 & s2 & -> & H1 & H2).
      constructor; [by apply IH | done].
Qed.

Lemma matchesb_Matches (r : Regex) (s : list ascii) :
  matchesb r s = true ↔ Matches r s.
Proof.
  revert r. induction s as [|c s IH]; intros r; simpl.
  - apply nullable_Matches.
  - by rewrite IH, deriv_Matches.
Qed.

Lemma Matches_anything (s : list ascii) : Matches anything s.
Proof.
  induction s as [|c s IH]; [constructor|].
  apply (MStarCons _ [c] s); [by constructor | exact IH].
Qed.

(** A search finds the pattern when some part of the string matches its
    body, the last part when the pattern ends in [$]. *)
Lemma regexp_test_spec (pattern : Pattern) (str : string) :
  regexp_test pattern str = true ↔
  ∃ before found after,
    list_ascii_of_string str = (before ++ found ++ after)%list
    ∧ Matches (body pattern) found
    ∧ (anchoredAtEnd pattern = true → after = []).
Proof.
  unfold regexp_test. rewrite matchesb_Matches. split.
  - inversion 1 as [| |? ? before rest _ Hrest| | | |]; subst.
    inversion Hrest as [| |? ? found after Hfound Hafter| | | |]; subst.
    exists before, found, after. repeat split; [done|].
    intros Hend. rewrite Hend in Hafter. by inversion Hafter.
  - intros (before & found & after & -> & Hfound & Hend).
    constructor; [apply Matches_anything|]. constructor; [done|].
    destruct (anchoredAtEnd pattern); [|apply Matches_anything].
    rewrite Hend by done. constructor.
Qed.

Lemma Matches_Sym (p : ascii → bool) (s : list ascii) :
  Matches (Sym p) s ↔ ∃ c, s = [c] ∧ p c = true.
Proof.
  split; [inversion 1; subst; by eexists | intros (c & -> & Hc); by constructor].
Qed.

Lemma Matches_Seq (r1 r2 : Regex) (s : list ascii) :
  Matches (Seq r1 r2) s ↔ ∃ s1 s2, s = (s1 ++ s2)%list ∧ Matches r1 s1 ∧ Matches r2 s2.
Proof.
  split.
  - inversion 1; subst. by do 2 eexists.
  - intros (s1 & s2 & -> & H1 & H2). by constructor.
Qed.

Lemma Matches_Opt (r : Regex) (s : list ascii) :
  Matches (Opt r) s ↔ s = [] ∨ Matches r s.
Proof.
  unfold Opt. split.
  - inversion 1 as [| | |? ? ? H1|? ? ? H1| |]; subst; [by right|]. inversion H1. by left.
  - intros [->|H]; [apply MAltR; constructor | by apply MAltL].
Qed.

Lemma Matches_Eps (s : list ascii) : Matches Eps s ↔ s = [].
Proof. split; [by inversion 1 | intros ->; constructor]. Qed.

Lemma Matches_Lit (lit : string) (s : list ascii) :
  Matches (Lit lit) s ↔ s = list_ascii_of_string lit.
Proof.
  revert s. induction lit as [|c lit IH]; intros s; simpl.
  - apply Matches_Eps.
  - rewrite Matches_Seq. split.
    + intros (s1 & s2 & -> & H1 & H2).
      apply Matches_Sym in H1 as (c' & -> & Hc). apply Ascii.eqb_eq in Hc as <-.
      apply IH in H2 as ->. done.
    + intros ->. exists [c], (list_ascii_of_string lit).
      split; [done|]. split; [|by apply IH].
      constructor. apply Ascii.eqb_refl.
Qed.

Lemma Matches_Star_Sym (p : ascii → bool) (s : list ascii) :
  Matches (Star (Sym p)) s ↔ forallb p s = true.
Proof.
  split.
  - intros H. remember (Star (Sym p)) as r eqn:Hr.
    induction H as [| | | | | |r0 s1 s2 H1 _ H2 IH2]; try discriminate; [done|].
    injection Hr as ->. apply Matches_Sym in H1 as (c & -> & Hc).
    simpl. rewrite Hc. by apply IH2.
  - induction s as [|c s IH]; simpl; [constructor|].
    intros [Hc Hs]%andb_true_iff.
    apply (MStarCons _ [c] s); [by constructor | by apply IH].
Qed.

Lemma Matches_Plus_Sym (p : ascii → bool) (s : list ascii) :
  Matches (Plus (Sym p)) s ↔ s ≠ [] ∧ forallb p s = true.
Proof.
  unfold Plus. rewrite Matches_Seq. split.
  - intros (s1 & s2 & -> & H1 & H2).
    apply Matches_Sym in H1 as (c & -> & Hc). apply Matches_Star_Sym in H2.
    split; [done|]. simpl. by rewrite Hc.
  - intros [Hne Hs]. destruct s as [|c s]; [done|].
    simpl in Hs. apply andb_true_iff in Hs as [Hc Hs].
    exists [c], s. split; [done|]. split; [by constructor | by apply Matches_Star_Sym].
Qed.

Lemma Matches_Power_Sym (n : nat) (p : ascii → bool) (s : list ascii) :
  Matches (Power n (Sym p)) s ↔ length s = n ∧ forallb p s = true.
Proof.
  revert s. induction n as [|n IH]; intros s; simpl.
  - rewrite Matches_Eps. split; [by intros -> | intros [Hl _]; by destruct s].
  - rewrite Matches_Seq. split.
    + intros (s1 & s2 & -> & H1 & H2).
      apply Matches_Sym in H1 as (c & -> & Hc). apply IH in H2 as [<- Hs].
      simpl. by rewrite Hc.
    + intros [Hl Hs]. destruct s as [|c s]; [done|].
      simpl in *. apply andb_true_iff in Hs as [Hc Hs].
      exists [c], s. split; [done|]. split; [by constructor|].
      apply IH. split; [lia | done].
Qed.

Lemma Matches_UpTo_Sym (n : nat) (p : ascii → bool) (s : list ascii) :
  Matches (UpTo n (Sym p)) s ↔ (length s <= n)%nat ∧ forallb p s = true.
Proof.
  revert s. induction n as [|n IH]; intros s; simpl.
  - rewrite Matches_Eps. split; [by intros -> |].
    intros [Hl _]. destruct s; [done | simpl in Hl; lia].
  - rewrite Matches_Opt, Matches_Seq. split.
    + intros [->|(s1 & s2 & -> & H1 & H2)]; [split; [simpl; lia | done]|].
      apply Matches_Sym in H1 as (c & -> & Hc). apply IH in H2 as [Hl Hs].
      simpl. rewrite Hc. split; [lia | done].
    + intros [Hl Hs]. destruct s as [|c s]; [by left|]. right.
      simpl in *. apply andb_true_iff in Hs as [Hc Hs].
      exists [c], s. split; [done|]. split; [by constructor|].
      apply IH. split; [lia | done].
Qed.

Lemma Matches_Repeat_Sym (lo hi : nat) (p : ascii → bool) (s : list ascii) :
  (lo <= hi)%nat →
  Matches (Repeat lo hi (Sym p)) s
  ↔ (lo <= length s <= hi)%nat ∧ forallb p s = true.
Proof.
  intros Hle. unfold Repeat. rewrite Matches_Seq. split.
  - intros (s1 & s2 & -> & H1 & H2).
    apply Matches_Power_Sym in H1 as [Hl1 Hs1].
    apply Matches_UpTo_Sym in H2 as [Hl2 Hs2].
    rewrite length_app, forallb_app, Hs1, Hs2. split; [lia | done].
  - intros [Hl Hs]. exists (take lo s), (drop lo s).
    rewrite <- (take_drop lo s) in Hs. rewrite forallb_app in Hs.
    apply andb_true_iff in Hs as [Hs1 Hs2].
    split; [by rewrite take_drop|]. split.
    + apply Matches_Power_Sym. split; [|done]. rewrite length_take. lia.
    + apply Matches_UpTo_Sym. split; [|done]. rewrite length_drop. lia.
Qed.

(** ** Strings as lists of characters *)

Lemma string_app_cons (c : ascii) (a b : string) :
  String c a ++ b = String c (a ++ b).
Proof. reflexivity. Qed.

Lemma string_app_nil_r (a : string) : a ++ "" = a.
Proof. induction a as [|c a IH]; [done|]. by rewrite string_app_cons, IH. Qed.

Lemma string_app_assoc (a b c : string) : (a ++ b) ++ c = a ++ b ++ c.
Proof. induction a as [|x a IH]; [done|]. by rewrite !string_app_cons, IH. Qed.

Lemma list_ascii_of_string_app (a b : string) :
  list_ascii_of_string (a ++ b)
  = (list_ascii_of_string a ++ list_ascii_of_string b)%list.
Proof.
  induction a as [|c a IH]; [done|].
  rewrite string_app_cons. simpl. by rewrite IH.
Qed.

Lemma string_of_list_ascii_app (a b : list ascii) :
  string_of_list_ascii (a ++ b)
  = string_of_list_ascii a ++ string_of_list_ascii b.
Proof.
  induction a as [|c a IH]; [done|].
  simpl. by rewrite string_app_cons, IH.
Qed.

Lemma length_list_ascii_of_string (a : string) :
  length (list_ascii_of_string a) = String.length a.
Proof. induction a as [|c a IH]; simpl; [done | by rewrite IH]. Qed.

Lemma existsb_eqb_elem (c : ascii) (cs : list ascii) :
  existsb (Ascii.eqb c) cs = true ↔ c ∈ cs.
Proof.
  rewrite existsb_exists. split.
  - intros (d & Hin & Heq). apply Ascii.eqb_eq in Heq as <-. by apply list_elem_of_In.
  - intros Hin. exists c. split; [by apply list_elem_of_In | apply Ascii.eqb_refl].
Qed.

(** ** [isURIEncoded] *)

Lemma unsafePattern_found (str : string) :
  regexp_test unsafePattern str = true
  ↔ ∃ c, c ∈ list_ascii_of_string str ∧ c ∈ unsafeCharacters.
Proof.
  rewrite regexp_test_spec. split.
  - intros (before & found & after & Hstr & Hfound & _).
    simpl in Hfound. apply Matches_Seq in Hfound as (s1 & s23 & -> & _ & H23).
    apply Matches_Seq in H23 as (s2 & s3 & -> & H2 & _).
    apply Matches_Sym in H2 as (c & -> & Hc). apply existsb_eqb_elem in Hc.
    exists c. split; [|done]. rewrite Hstr, !elem_of_app, ?elem_of_cons.
    intuition.
  - intros (c & Hin & Hc).
    apply list_elem_of_split in Hin as (before & after & Hstr).
    exists before, [c], after. split; [done|]. split; [|done].
    simpl. apply (MSeq _ _ [] [c]); [constructor|].
    apply (MSeq _ _ [c] []); [|constructor].
    constructor. by apply existsb_eqb_elem.
Qed.

Lemma isURIEncoded_clean (str : string) :
  isURIEncoded str = true →
  Forall (λ c, c ∉ unsafeCharacters) (list_ascii_of_string str).
Proof.
  unfold isURIEncoded. rewrite negb_true_iff, <- not_true_iff_false.
  rewrite unsafePattern_found, Forall_forall.
  intros Hnone c Hin Hc. apply Hnone. by exists c.
Qed.

(** X1. [isURIEncoded] accepts a string exactly when it holds none of the
    twelve characters of the class: line terminators and the place of the
    character do not matter. *)
Theorem isURIEncoded_iff (str : string) :
  isURIEncoded str = true
  ↔ Forall (λ c, c ∉ unsafeCharacters) (list_ascii_of_string str).
Proof.
  unfold isURIEncoded. rewrite negb_true_iff, <- not_true_iff_false.
  rewrite unsafePattern_found, Forall_forall. split.
  - intros Hnone c Hin Hc. apply Hnone. by exists c.
  - intros Hall (c & Hin & Hc). by apply (Hall c).
Qed.

(** ** [encodeURI] and the query of [search] *)

Lemma encodeURI_app (a b : string) :
  encodeURI (a ++ b) = encodeURI a ++ encodeURI b.
Proof.
  induction a as [|c a IH]; [done|].
  rewrite string_app_cons. simpl. by rewrite IH, string_app_assoc.
Qed.

(** No escape holds a character of the class, the tilde apart, which is
    never escaped. *)
Lemma encodeCharacter_safe (c : ascii) :
  forallb (λ d, negb (existsb (Ascii.eqb d) unsafeCharacters) || Ascii.eqb d "~")
    (list_ascii_of_string (encodeCharacter c)) = true.
Proof. destruct c as [[] [] [] [] [] [] [] []]; vm_compute; reflexivity. Qed.

Lemma encodeURI_safe (uri : string) :
  Forall (λ c, c ∈ unsafeCharacters → c = "~"%char)
    (list_ascii_of_string (encodeURI uri)).
Proof.
  induction uri as [|c uri IH]; simpl; [constructor|].
  rewrite list_ascii_of_string_app. apply Forall_app. split; [|done].
  pose proof (encodeCharacter_safe c) as Hsafe.
  rewrite forallb_forall in Hsafe. apply Forall_forall. intros d Hd Hunsafe.
  specialize (Hsafe d (proj1 (list_elem_of_In _ _) Hd)).
  apply orb_true_iff in Hsafe as [Hsafe|Hsafe].
  - apply negb_true_iff in Hsafe. apply existsb_eqb_elem in Hunsafe. congruence.
  - by apply Ascii.eqb_eq.
Qed.

(** X2. Whatever the query, the text [search] puts into the request holds
    no space, double quote, [<], [>], [{], [}], [|], backslash, [^], [[]
    or []]: of the twelve characters of the test only the tilde can get
    through. *)
Theorem search_query_has_no_unsafe_character (query : string) :
  Forall (λ c, c ∈ unsafeCharacters → c = "~"%char)
    (list_ascii_of_string (encodedQuery query)).
Proof.
  unfold encodedQuery. destruct (isURIEncoded query) eqn:Hencoded.
  - apply isURIEncoded_clean in Hencoded.
    eapply Forall_impl; [exact Hencoded|]. by intros c Hc Hin.
  - apply encodeURI_safe.
Qed.

(** X3. A query that already holds an escape and also a character of the
    class is escaped once more: its percent sign becomes [%25]. *)
Theorem search_escapes_percent_again (before after : string) :
  isURIEncoded (before ++ "%" ++ after) = false →
  encodedQuery (before ++ "%" ++ after)
  = encodeURI before ++ "%25" ++ encodeURI after.
Proof.
  intros Hencoded. unfold encodedQuery. rewrite Hencoded.
  by rewrite !encodeURI_app.
Qed.

(** ** The path of [discover] *)

Lemma concat_snoc (parts : list string) (part : string) :
  String.concat "" (parts ++ [part]) = String.concat "" parts ++ part.
Proof.
  induction parts as [|p parts IH]; [done|].
  destruct parts as [|q parts].
  - simpl. done.
  - change (String.concat "" ((p :: q :: parts) ++ [part]))
      with (p ++ "" ++ String.concat "" ((q :: parts) ++ [part])).
    rewrite IH.
    change (String.concat "" (p :: q :: parts))
      with (p ++ "" ++ String.concat "" (q :: parts)).
    change ("" ++ ?x) with x.
    by rewrite string_app_assoc.
Qed.

(** X4. [discover] writes its options into the path in the order given
    and as they are: one more option adds [&key=value] at the end of the
    path, and a missing page is page 1. *)
Theorem discoverPath_snoc (page : option Z) (restArgs : list (string * string))
    (key value : string) :
  discoverPath page (restArgs ++ [(key, value)])
  = discoverPath page restArgs ++ "&" ++ key ++ "=" ++ value
  ∧ discoverPath None restArgs = discoverPath (Some 1) restArgs.
Proof.
  split; [|done]. unfold discoverPath.
  rewrite map_app. cbn [map fst snd]. rewrite concat_snoc.
  by rewrite !string_app_assoc.
Qed.

(** ** The origins the CORS configuration admits *)

Lemma list_ascii_of_string_inj (a b : string) :
  list_ascii_of_string a = list_ascii_of_string b → a = b.
Proof.
  intros H. rewrite <- (string_of_list_ascii_of_string a), H.
  apply string_of_list_ascii_of_string.
Qed.

(** What the body of the pattern matches, piece by piece. *)
Lemma localhostPattern_Matches (found : list ascii) :
  Matches (body localhostPattern) found
  ↔ ∃ s host port,
      found = (list_ascii_of_string "http" ++ s ++ list_ascii_of_string "://"
               ++ host ++ list_ascii_of_string "localhost" ++ port)%list
      ∧ (s = [] ∨ s = ["s"%char])
      ∧ (host = []
         ∨ ∃ label, label ≠ []
                    ∧ forallb (λ c, negb (lineTerminator c)) label = true
                    ∧ host = (label ++ ["."%char])%list)
      ∧ (port = []
         ∨ ∃ digits, port = ":"%char :: digits
                     ∧ (1 <= length digits <= 5)%nat
                     ∧ forallb isDigit digits = true).
Proof.
  unfold localhostPattern. cbn [body]. split.
  - intros H.
    apply Matches_Seq in H as (l1 & r1 & -> & H1 & H).
    apply Matches_Seq in H as (l2 & r2 & -> & H2 & H).
    apply Matches_Seq in H as (l3 & r3 & -> & H3 & H).
    apply Matches_Seq in H as (l4 & r4 & -> & H4 & H).
    apply Matches_Seq in H as (l5 & l6 & -> & H5 & H6).
    apply Matches_Lit in H1 as ->. apply Matches_Lit in H3 as ->.
    apply Matches_Lit in H5 as ->.
    exists l2, l4, l6. split; [done|]. split; [|split].
    + apply Matches_Opt in H2 as [->|H2]; [by left|]. right.
      apply Matches_Sym in H2 as (c & -> & Hc). by apply Ascii.eqb_eq in Hc as <-.
    + apply Matches_Opt in H4 as [->|H4]; [by left|]. right.
      apply Matches_Seq in H4 as (label & dot & -> & Hlabel & Hdot).
      apply Matches_Plus_Sym in Hlabel as [Hne Hlabel].
      apply Matches_Sym in Hdot as (c & -> & Hc). apply Ascii.eqb_eq in Hc as <-.
      by exists label.
    + apply Matches_Opt in H6 as [->|H6]; [by left|]. right.
      apply Matches_Seq in H6 as (colon & digits & -> & Hcolon & Hdigits).
      apply Matches_Sym in Hcolon as (c & -> & Hc). apply Ascii.eqb_eq in Hc as <-.
      apply Matches_Repeat_Sym in Hdigits as [Hlen Hdigits]; [|lia].
      by exists digits.
  - intros (s & host & port & -> & Hs & Hhost & Hport).
    constructor; [by apply Matches_Lit|].
    constructor.
    { apply Matches_Opt. destruct Hs as [->| ->]; [by left|right].
      constructor. apply Ascii.eqb_refl. }
    constructor; [by apply Matches_Lit|].
    constructor.
    { apply Matches_Opt.
      destruct Hhost as [->|(label & Hne & Hlabel & ->)]; [by left|right].
      constructor; [by apply Matches_Plus_Sym|].
      constructor. apply Ascii.eqb_refl. }
    constructor; [by apply Matches_Lit|].
    apply Matches_Opt.
    destruct Hport as [->|(digits & -> & Hlen & Hdigits)]; [by left|right].
    apply (MSeq _ _ [":"%char] digits).
    + constructor. apply Ascii.eqb_refl.
    + apply Matches_Repeat_Sym; [lia | done].
Qed.

(** The pattern, on strings. *)
Lemma localhostPattern_test (origin : string) :
  regexp_test localhostPattern origin = true
  ↔ ∃ before s host port : string,
      origin = before ++ "http" ++ s ++ "://" ++ host ++ "localhost" ++ port
      ∧ (s = "" ∨ s = "s")
      ∧ (host = ""
         ∨ ∃ label : string,
             label ≠ ""
             ∧ forallb (λ c, negb (lineTerminator c)) (list_ascii_of_string label) = true
             ∧ host = label ++ ".")
      ∧ (port = ""
         ∨ ∃ digits : string,
             port = ":" ++ digits
             ∧ (1 <= String.length digits <= 5)%nat
             ∧ forallb isDigit (list_ascii_of_string digits) = true).
Proof.
  rewrite regexp_test_spec. split.
  - intros (before & found & after & Hstr & Hfound & Hend).
    rewrite (Hend eq_refl), app_nil_r in Hstr.
    apply localhostPattern_Matches in Hfound
      as (s & host & port & -> & Hs & Hhost & Hport).
    exists (string_of_list_ascii before), (string_of_list_ascii s),
      (string_of_list_ascii host), (string_of_list_ascii port).
    split; [|split; [|split]].
    + apply list_ascii_of_string_inj.
      rewrite Hstr, !list_ascii_of_string_app, !list_ascii_of_string_of_list_ascii.
      done.
    + destruct Hs as [->| ->]; [by left | by right].
    + destruct Hhost as [->|(label & Hne & Hlabel & ->)]; [by left|right].
      exists (string_of_list_ascii label). split; [|split].
      * intros Hempty. apply Hne.
        by rewrite <- (list_ascii_of_string_of_list_ascii label), Hempty.
      * by rewrite list_ascii_of_string_of_list_ascii.
      * by rewrite string_of_list_ascii_app.
    + destruct Hport as [->|(digits & -> & Hlen & Hdigits)]; [by left|right].
      exists (string_of_list_ascii digits). split; [done|].
      rewrite <- length_list_ascii_of_string, list_ascii_of_string_of_list_ascii.
      done.
  - intros (before & s & host & port & -> & Hs & Hhost & Hport).
    exists (list_ascii_of_string before),
      (list_ascii_of_string ("http" ++ s ++ "://" ++ host ++ "localhost" ++ port)), [].
    split; [by rewrite app_nil_r, <- list_ascii_of_string_app|].
    split; [|done].
    apply localhostPattern_Matches.
    exists (list_ascii_of_string s), (list_ascii_of_string host),
      (list_ascii_of_string port).
    split; [by rewrite !list_ascii_of_string_app|]. split; [|split].
    + destruct Hs as [->| ->]; [by left | by right].
    + destruct Hhost as [->|(label & Hne & Hlabel & ->)]; [by left|right].
      exists (list_ascii_of_string label). split; [|split].
      * intros Hempty. apply Hne. by apply list_ascii_of_string_inj.
      * done.
      * by rewrite list_ascii_of_string_app.
    + destruct Hport as [->|(digits & -> & Hlen & Hdigits)]; [by left|right].
      exists (list_ascii_of_string digits). split; [done|].
      by rewrite length_list_ascii_of_string.
Qed.

(** X19. The origins the CORS configuration admits are the three fixed
    ones, each exactly, and the strings that end in [http] or [https],
    [://], possibly labels closed by a dot, [localhost], and possibly a
    colon with one to five digits. *)
Theorem originAllowed_iff (origin : string) :
  originAllowed origin = true
  ↔ (origin = "https://restflix.netlify.app"
     ∨ origin = "https://graphflix.netlify.app"
     ∨ origin = "https://studio.apollographql.com")
    ∨ ∃ before s host port : string,
        origin = before ++ "http" ++ s ++ "://" ++ host ++ "localhost" ++ port
        ∧ (s = "" ∨ s = "s")
        ∧ (host = ""
           ∨ ∃ label : string,
               label ≠ ""
               ∧ forallb (λ c, negb (lineTerminator c)) (list_ascii_of_string label) = true
               ∧ host = label ++ ".")
        ∧ (port = ""
           ∨ ∃ digits : string,
               port = ":" ++ digits
               ∧ (1 <= String.length digits <= 5)%nat
               ∧ forallb isDigit (list_ascii_of_string digits) = true).
Proof.
  rewrite <- localhostPattern_test. unfold originAllowed, corsOrigins.
  cbn [existsb isOriginAllowed]. rewrite !orb_true_iff, !bool_decide_eq_true.
  intuition discriminate.
Qed.

(** X20. The pattern is not tied to the start of the origin: whatever is
    put in front of an origin the pattern matches, the result is
    admitted. *)
Theorem originAllowed_any_prefix (before origin : string) :
  regexp_test localhostPattern origin = true →
  originAllowed (before ++ origin) = true.
Proof.
  intros Hmatch. unfold originAllowed, corsOrigins. cbn [existsb isOriginAllowed].
  apply orb_true_iff. left. apply localhostPattern_test.
  apply localhostPattern_test in Hmatch
    as (before' & s & host & port & -> & Hs & Hhost & Hport).
  exists (before ++ before'), s, host, port.
  split; [by rewrite string_app_assoc | done].
Qed.

(** ** The field resolvers of [TMDBMovie] *)

Lemma string_app_empty (a b : string) : a ++ b = "" → b = "".
Proof. destruct a; [done | discriminate]. Qed.

Lemma truthyPath_None (path : option string) :
  truthyPath path = None ↔ path = None ∨ path = Some "".
Proof.
  destruct path as [p|]; simpl; [|by split; [left|]].
  case_decide as Hp; [subst; by split; [right|]|].
  split; [done|]. intros [?|[= ->]]; done.
Qed.

Lemma truthyPath_Some (path : option string) (p : string) :
  truthyPath path = Some p → p ≠ "".
Proof.
  destruct path as [q|]; simpl; [|done]. case_decide; [done|]. by intros [= <-].
Qed.

(** X17. [backdropUrl] and [posterUrl] are the empty string exactly when
    the movie has no path, or an empty one, or the context has no image
    base URLs; in every other case the URL is not empty. *)
Theorem image_urls_empty_iff (movie : TmdbMovieObject) (ctx : MovieContext) :
  (backdropUrl movie ctx = ""
   ↔ backdrop_path movie = None ∨ backdrop_path movie = Some ""
     ∨ imageBaseUrls ctx = None)
  ∧ (posterUrl movie ctx = ""
     ↔ poster_path movie = None ∨ poster_path movie = Some ""
       ∨ imageBaseUrls ctx = None).
Proof.
  unfold backdropUrl, posterUrl. split.
  - pose proof (truthyPath_None (backdrop_path movie)) as Hnone.
    destruct (truthyPath (backdrop_path movie)) as [path|] eqn:Hpath.
    + destruct (imageBaseUrls ctx) as [urls|]; [|by split; [right; right|]].
      split.
      * intros Hempty%string_app_empty.
        by destruct (truthyPath_Some _ _ Hpath).
      * intros [H|[H|H]]; [| |done];
          by assert (Some path = None) by (apply Hnone; auto).
    + split; [|done]. intros _. destruct Hnone as [Hnone _].
      destruct (Hnone eq_refl); auto.
  - pose proof (truthyPath_None (poster_path movie)) as Hnone.
    destruct (truthyPath (poster_path movie)) as [path|] eqn:Hpath.
    + destruct (imageBaseUrls ctx) as [urls|]; [|by split; [right; right|]].
      split.
      * intros Hempty%string_app_empty.
        by destruct (truthyPath_Some _ _ Hpath).
      * intros [H|[H|H]]; [| |done];
          by assert (Some path = None) by (apply Hnone; auto).
    + split; [|done]. intros _. destruct Hnone as [Hnone _].
      destruct (Hnone eq_refl); auto.
Qed.

(** X18. [genres] gives one entry for each genre of the movie, and an
    entry is undefined exactly when the movie is of a result list, the
    context has a lookup table, and the table lacks one of the movie's
    genre ids.  Without a table every genre id of such a movie gives the
    placeholder with id -1 and an empty name; a detailed movie gives its
    own genres. *)
Theorem genres_undefined_iff (movie : TmdbMovieObject) (ctx : MovieContext) :
  length (genresField movie ctx)
  = match tm_kind movie with
    | SimpleMovie genre_ids => length genre_ids
    | DetailedMovie _ genres => length genres
    end
  ∧ (None ∈ genresField movie ctx
     ↔ ∃ genre_ids table genreId,
         tm_kind movie = SimpleMovie genre_ids
         ∧ genreLookupTable ctx = Some table
         ∧ genreId ∈ genre_ids
         ∧ table !! genreId = None)
  ∧ (∀ genre_ids,
       tm_kind movie = SimpleMovie genre_ids →
       genreLookupTable ctx = None →
       genresField movie ctx
       = map (λ _, Some {| genre_id := -1; genre_name := "" |}) genre_ids)
  ∧ (∀ genre_ids table,
       tm_kind movie = SimpleMovie genre_ids →
       genreLookupTable ctx = Some table →
       genresField movie ctx = map (λ genreId, table !! genreId) genre_ids)
  ∧ (∀ budget genres,
       tm_kind movie = DetailedMovie budget genres →
       genresField movie ctx = map Some genres).
Proof.
  unfold genresField. destruct (tm_kind movie) as [genre_ids|budget genres].
  - split; [apply length_map|]. split.
    + change (map ?f genre_ids) with (f <$> genre_ids). rewrite list_elem_of_fmap.
      split.
      * intros (genreId & Hnone & Hin).
        destruct (genreLookupTable ctx) as [table|]; [|done].
        by exists genre_ids, table, genreId.
      * intros (ids & table & genreId & [= <-] & Htable & Hin & Hnone).
        exists genreId. by rewrite Htable.
    + split; [|split]; [| |done].
      * intros ids [= <-] Hnone. by rewrite Hnone.
      * intros ids table [= <-] Htable. by rewrite Htable.
  - split; [apply length_map|]. split.
    + change (map Some genres) with (Some <$> genres). rewrite list_elem_of_fmap.
      split; [by intros (g & ? & _) | by intros (? & ? & ? & ? & _)].
    + split; [done|]. split; [done|]. by intros ? ? [= <- <-].
Qed.

(** ** Worked examples on the small deployment *)

(** [runIfAuthorized] for alice's id with the status of user ["u2"]. *)
Lemma runIfAuthorized_mismatch_witness :
  userId {| isAuthenticated := true; userId := Some "u2" |} ≠ Some "u1"
  ∧ runIfAuthorized {| isAuthenticated := true; userId := Some "u2" |} "u1"
      (counted (Demo.usersService_updateUser "u1" "new")) (Demo.registered, 0%nat)
    = ({| data := None; errors := [Unauthorized]; statusCode := 401 |},
       (Demo.registered, 0%nat)).
Proof.
  split; [discriminate|].
  apply (runIfAuthorized_mismatch
           {| isAuthenticated := true; userId := Some "u2" |} "u1"
           (Demo.usersService_updateUser "u1" "new") Demo.registered 0).
  discriminate.
Defined.

(** A [silentRefresh] with a token nobody issued. *)
Lemma silentRefresh_rejects_witness :
  silentRefresh Demo.jwt_sign Demo.fingerprint Demo.JWT_TOKEN_EXPIRATION_IN_SECONDS
    Demo.REFRESH_TOKEN_EXPIRATION_IN_SECONDS Demo.registered
    {| cookies_refreshToken := Some "R9"; headers_authorization := None |}
    1000 "R2" [] Demo.store
  = (Returned {| p_statusCode := 400; p_user := None; p_jwtToken := Some "";
                 p_refreshTokenData := None;
                 p_errors := [ {| message := "Authentication Error: Invalid refresh token." |} ] |},
     [ {| cookie_name := "refreshToken"; cookie_value := "";
          cookie_options := {| maxAge := None; expires := Some 0; httpOnly := true;
                               secure := true; sameSite := "none" |} |} ],
     Demo.store).
Proof.
  apply (silentRefresh_rejects Demo.jwt_sign Demo.fingerprint
           Demo.JWT_TOKEN_EXPIRATION_IN_SECONDS Demo.REFRESH_TOKEN_EXPIRATION_IN_SECONDS
           Demo.registered
           {| cookies_refreshToken := Some "R9"; headers_authorization := None |}
           1000 "R2" [] Demo.store).
  intros t [= <-]. left. vm_compute. reflexivity.
Defined.

(** A [silentRefresh] with alice's token after its record expired. *)
Lemma silentRefresh_rejects_expired :
  (silentRefresh Demo.jwt_sign Demo.fingerprint Demo.JWT_TOKEN_EXPIRATION_IN_SECONDS
     Demo.REFRESH_TOKEN_EXPIRATION_IN_SECONDS Demo.registered
     {| cookies_refreshToken := Some "R1"; headers_authorization := None |}
     604800000 "R2" [] Demo.store).1.1
  = Returned {| p_statusCode := 400; p_user := None; p_jwtToken := Some "";
                p_refreshTokenData := None; p_errors := [InvalidRefreshToken] |}.
Proof. vm_compute. reflexivity. Qed.

(** A logout with a header that is not a bearer credential: the seven
    characters go all the same. *)
Lemma logoutUser_slices_header_witness :
  logoutUser Demo.jwt_verify
    {| cookies_refreshToken := Some "R1";
       headers_authorization := Some ("Basic T" ++ "1") |} [] Demo.store
  = (Returned {| p_statusCode := 200; p_user := None; p_jwtToken := None;
                 p_refreshTokenData := None; p_errors := [] |},
     res_cookie "refreshToken" "" cookieExpired [],
     removeRefreshTokenFromWhitelist (Some "R1")
       (addAccessTokenToBlacklist Demo.jwt_verify (Some "1") Demo.store)).
Proof.
  apply (proj1 (logoutUser_slices_header Demo.jwt_verify (Some "R1") [] Demo.store)
           "Basic T" "1").
  reflexivity.
Defined.

(** After alice's logout with ["Bearer T1"], a sweep and another login,
    ["T1"] is refused at time 1000, long before it expires at 900000. *)
Lemma logout_revokes_access_token_witness :
  Forall (before 1000) [EvSweep 500; EvWhitelistAdd Demo.record; EvBlacklist (Some "T2")]
  ∧ verifyAccessToken Demo.jwt_verify "T1" 1000 = Some Demo.payload
  ∧ deriveAuthStatus Demo.jwt_verify Demo.fingerprint Demo.registered
      (fold_left (store_event Demo.jwt_verify)
         [EvSweep 500; EvWhitelistAdd Demo.record; EvBlacklist (Some "T2")]
         (logoutUser Demo.jwt_verify
            {| cookies_refreshToken := Some "R1";
               headers_authorization := Some ("Bearer " ++ "T1") |} [] Demo.store).2)
      (Some "T1") 1000
    = {| isAuthenticated := false; userId := None |}.
Proof.
  assert (Hbefore : Forall (before 1000)
            [EvSweep 500; EvWhitelistAdd Demo.record; EvBlacklist (Some "T2")]).
  { repeat constructor. simpl. lia. }
  split; [exact Hbefore|]. split; [reflexivity|].
  exact (proj1 (logout_revokes_access_token Demo.jwt_verify Demo.fingerprint
                  Demo.registered "T1" (Some "R1") [] Demo.store
                  [EvSweep 500; EvWhitelistAdd Demo.record; EvBlacklist (Some "T2")]
                  1000 Hbefore)).
Defined.

(** Without the logout, ["T1"] is accepted at time 1000. *)
Lemma access_token_accepted_before_logout :
  deriveAuthStatus Demo.jwt_verify Demo.fingerprint Demo.registered Demo.store
    (Some "T1") 1000
  = {| isAuthenticated := true; userId := Some "u1" |}.
Proof. reflexivity. Qed.


(** A login of alice while the signer lacks its secret. *)
Lemma loginUser_recovers_signing_failure_witness :
  generateJWTToken Demo.jwt_sign_unconfigured Demo.fingerprint
    Demo.JWT_TOKEN_EXPIRATION_IN_SECONDS "u1" "h1" 0
  = Throws (JsError "secretOrPrivateKey must have a value")
  ∧ loginUser Demo.jwt_sign_unconfigured Demo.fingerprint
      Demo.JWT_TOKEN_EXPIRATION_IN_SECONDS Demo.REFRESH_TOKEN_EXPIRATION_IN_SECONDS
      Demo.usersService_loginUser "alice" "secret" 0 "R1" [] Demo.store Demo.registered
    = (Returned {| p_statusCode := 500; p_user := None; p_jwtToken := Some "";
                   p_refreshTokenData := Some None;
                   p_errors := [ {| message := "secretOrPrivateKey must have a value" |} ] |},
       [], Demo.store, Demo.registered).
Proof.
  apply (loginUser_recovers_signing_failure Demo.jwt_sign_unconfigured Demo.fingerprint
           Demo.JWT_TOKEN_EXPIRATION_IN_SECONDS Demo.REFRESH_TOKEN_EXPIRATION_IN_SECONDS
           Demo.usersService_loginUser "alice" "secret" 0 "R1" [] Demo.store
           Demo.registered Demo.registered
           {| data := Some Demo.alice; errors := []; statusCode := 200 |}
           Demo.alice (JsError "secretOrPrivateKey must have a value")).
  - reflexivity.
  - reflexivity.
  - reflexivity.
Defined.

(** The signing failure of that login is not fatal: the resolver returns,
    and what it returns is an error result of the request. *)
Lemma signing_failure_becomes_request_error :
  Demo.jwt_sign_unconfigured
    {| jwt_userId := "u1"; jwt_passwordHashFingerprint := "h1"; issuedAt := 0;
       jwt_expiresAt := 900000 |}
  = Throws (JsError "secretOrPrivateKey must have a value")
  ∧ (loginUser Demo.jwt_sign_unconfigured Demo.fingerprint
       Demo.JWT_TOKEN_EXPIRATION_IN_SECONDS Demo.REFRESH_TOKEN_EXPIRATION_IN_SECONDS
       Demo.usersService_loginUser "alice" "secret" 0 "R1" [] Demo.store
       Demo.registered).1.1.1
    = Returned {| p_statusCode := 500; p_user := None; p_jwtToken := Some "";
                  p_refreshTokenData := Some None;
                  p_errors := [ {| message := "secretOrPrivateKey must have a value" |} ] |}
  ∧ returns (loginUser Demo.jwt_sign_unconfigured Demo.fingerprint
               Demo.JWT_TOKEN_EXPIRATION_IN_SECONDS
               Demo.REFRESH_TOKEN_EXPIRATION_IN_SECONDS
               Demo.usersService_loginUser "alice" "secret" 0 "R1" [] Demo.store
               Demo.registered).1.1.1 = true.
Proof. repeat split. Qed.


Lemma movies_example :
  moviesOperation Demo.tmdbFetch ["7"; "1"; "1"] []
  = (Returned [tt; tt; tt],
     [TmdbMovie {| movie_id := 1; title := "Alien" |};
      TmdbMovie {| movie_id := 1; title := "Alien" |}])
  ∧ movies Demo.tmdbFetch ["7"; "1"; "1"] {| isAuthenticated := true; userId := Some "u1" |}
    = Throws (JsError "TypeError: Cannot read properties of undefined (reading 'length')")
  ∧ movies Demo.tmdbFetch ["1"] {| isAuthenticated := true; userId := Some "u1" |}
    = Throws (JsError "TypeError: Cannot read properties of undefined (reading 'length')")
  ∧ movie Demo.tmdbFetch "1" {| isAuthenticated := true; userId := Some "u1" |}
    = Returned (Some (TmdbMovie {| movie_id := 1; title := "Alien" |})).
Proof. repeat split. Qed.

(** An unauthenticated [discover] leaves the resolver as a throw. *)
Lemma discover_throws_when_unauthenticated :
  discover Demo.tmdbFetch None [] {| isAuthenticated := false; userId := None |}
  = Throws (AuthenticationError "Unauthenticated")
  ∧ returns (discover Demo.tmdbFetch None []
               {| isAuthenticated := false; userId := None |}) = false.
Proof. split; reflexivity. Qed.

Lemma gated_resolvers_raise_errors_witness :
  discover Demo.tmdbFetch None [("sort_by", "popularity.desc")]
    {| isAuthenticated := false; userId := None |}
  = Throws (AuthenticationError (message Unauthenticated))
  ∧ updateUser string Demo.usersService_updateUser "u1" "new"
      {| isAuthenticated := true; userId := Some "u2" |} Demo.registered
    = (Throws (AuthenticationError (message Unauthorized)), Demo.registered).
Proof.
  pose proof (gated_resolvers_raise_errors Demo.jwt_sign Demo.fingerprint
                Demo.JWT_TOKEN_EXPIRATION_IN_SECONDS
                Demo.REFRESH_TOKEN_EXPIRATION_IN_SECONDS string
                Demo.usersService_loginUser Demo.usersService_updateUser
                Demo.tmdbFetch) as H.
  split.
  - apply (H {| isAuthenticated := false; userId := None |} None
             [("sort_by", "popularity.desc")] "u1" "new" "alice" "secret" 0 "R1" []
             Demo.store Demo.registered).
    reflexivity.
  - apply (H {| isAuthenticated := true; userId := Some "u2" |} None
             [] "u1" "new" "alice" "secret" 0 "R1" [] Demo.store Demo.registered).
    discriminate.
Defined.


(** The same deployment as evaluated: [silentRefresh] throws where
    [loginUser] returns status 500. *)
Lemma silentRefresh_throws_signing_failure :
  silentRefresh Demo.jwt_sign_unconfigured Demo.fingerprint
    Demo.JWT_TOKEN_EXPIRATION_IN_SECONDS Demo.REFRESH_TOKEN_EXPIRATION_IN_SECONDS
    Demo.registered
    {| cookies_refreshToken := Some "R1"; headers_authorization := None |}
    1000 "R2" [] Demo.store
  = (Throws (JsError "secretOrPrivateKey must have a value"), [],
     {| whitelist :=
          {[ "R2" := {| refreshToken := "R2"; rt_userId := "u1";
                        rt_passwordHashFingerprint := "h1";
                        expiresAt := 604801000 |} ]};
        blacklist := ∅ |})
  ∧ (loginUser Demo.jwt_sign_unconfigured Demo.fingerprint
       Demo.JWT_TOKEN_EXPIRATION_IN_SECONDS Demo.REFRESH_TOKEN_EXPIRATION_IN_SECONDS
       Demo.usersService_loginUser "alice" "secret" 1000 "R2" [] Demo.store
       Demo.registered).1.1.1
    = Returned {| p_statusCode := 500; p_user := None; p_jwtToken := Some "";
                  p_refreshTokenData := Some None;
                  p_errors := [ {| message := "secretOrPrivateKey must have a value" |} ] |}.
Proof. split; vm_compute; reflexivity. Qed.




(** In that race the first request makes its swap first and wins. *)
Lemma race_example :
  let '(_, p1, p2) :=
    race Demo.jwt_sign Demo.fingerprint Demo.JWT_TOKEN_EXPIRATION_IN_SECONDS
      Demo.REFRESH_TOKEN_EXPIRATION_IN_SECONDS Demo.registered
      {| call_token := "R1"; call_now := 1000; call_random := "R2" |}
      {| call_token := "R1"; call_now := 1001; call_random := "R3" |}
      [true; false; true; false; true; false; true; false]
      (Demo.store, Presented, Presented) in
  response Demo.REFRESH_TOKEN_EXPIRATION_IN_SECONDS p1
  = Some (Returned (refreshed Demo.alice "T1"))
  ∧ response Demo.REFRESH_TOKEN_EXPIRATION_IN_SECONDS p2
    = Some (Returned invalidRefreshToken).
Proof. vm_compute. by split. Qed.

(** ** Worked examples for the queries, the origins and the session *)

(** A query that holds an escape and a space: the escape is escaped
    again. *)
Lemma search_escapes_percent_again_witness :
  isURIEncoded ("star" ++ "%" ++ "20wars episode") = false
  ∧ encodedQuery ("star" ++ "%" ++ "20wars episode") = "star%2520wars%20episode".
Proof.
  split; [reflexivity|].
  apply (search_escapes_percent_again "star" "20wars episode"). reflexivity.
Defined.

Lemma searchPath_examples :
  searchPath "star wars" (Some 2) = "/search/movie?query=star%20wars&page=2"
  ∧ searchPath "x&page=9" (Some 1) = "/search/movie?query=x&page=9&page=1"
  ∧ searchPath "a~b c" (Some 1) = "/search/movie?query=a~b%20c&page=1".
Proof. repeat split. Qed.

(** [discover] returns the page the catalogue answers with. *)
Lemma page_queries_need_data_witness :
  movie Demo.tmdbFetch "1" {| isAuthenticated := true; userId := Some "u1" |}
  = Returned (Some (TmdbMovie {| movie_id := 1; title := "Alien" |})).
Proof.
  apply (page_queries_need_data Demo.tmdbFetch (Text "alien") "1" None []
           {| isAuthenticated := true; userId := Some "u1" |}).
  reflexivity.
Defined.

(** Movie 1 has data, movie 7 has an error and none. *)
Lemma movie_and_movies_array_of_one_id_witness :
  moviesOperation Demo.tmdbFetch ["1"] []
  = (Returned [tt], [TmdbMovie {| movie_id := 1; title := "Alien" |}])
  ∧ movie Demo.tmdbFetch "7" {| isAuthenticated := true; userId := Some "u1" |}
    = Throws (ApolloError "The resource you requested could not be found.")
  ∧ moviesOperation Demo.tmdbFetch ["7"] [] = (Returned [tt], []).
Proof.
  split.
  - apply (proj1 (movie_and_movies_array_of_one_id Demo.tmdbFetch "1"
                    {| isAuthenticated := true; userId := Some "u1" |})).
    reflexivity.
  - apply (proj2 (movie_and_movies_array_of_one_id Demo.tmdbFetch "7"
                    {| isAuthenticated := true; userId := Some "u1" |})
             {| data := None;
                errors := [ {| message := "The resource you requested could not be found." |} ];
                statusCode := 404 |}
             {| message := "The resource you requested could not be found." |} []);
      reflexivity.
Defined.

(** Of the ids 1, 7, 1 one has no data: the array falls short of three. *)
Lemma movies_array_full_iff_witness :
  ∃ found,
    moviesOperation Demo.tmdbFetch ["7"; "1"; "1"] []
    = (Returned (map (λ _, tt) ["7"; "1"; "1"]), found)
    ∧ (length found = length ["1"; "7"; "1"]
       ↔ ∀ movieId, movieId ∈ ["1"; "7"; "1"] → is_Some (fetched Demo.tmdbFetch movieId)).
Proof.
  apply (movies_array_full_iff Demo.tmdbFetch ["1"; "7"; "1"] ["7"; "1"; "1"]).
  - apply Permutation_swap.
  - intros movieId _. unfold Demo.tmdbFetch. case_decide; by eexists.
Defined.

Lemma movies_array_settle_order_witness :
  ∃ found1 found2,
    moviesOperation Demo.tmdbFetch ["7"; "1"; "2"] []
    = (Returned (map (λ _, tt) ["7"; "1"; "2"]), found1)
    ∧ moviesOperation Demo.tmdbFetch ["1"; "7"; "2"] []
      = (Returned (map (λ _, tt) ["1"; "7"; "2"]), found2)
    ∧ found1 ≡ₚ found2
    ∧ length found1 = length found2.
Proof.
  apply (movies_array_settle_order Demo.tmdbFetch ["7"; "1"; "2"] ["1"; "7"; "2"]).
  - apply Permutation_swap.
  - intros movieId _. unfold Demo.tmdbFetch. case_decide; by eexists.
Defined.

(** Movie 13 cannot be reached: the query for 1, 13 and 7 fails. *)
Lemma movies_fails_with_first_failure_witness :
  movies Demo.tmdbFetch_flaky (["1"] ++ "13" :: ["7"])
    {| isAuthenticated := true; userId := Some "u1" |}
  = Throws (ApolloError "connect ETIMEDOUT").
Proof.
  apply (movies_fails_with_first_failure Demo.tmdbFetch_flaky ["1"] ["7"] "13"
           (JsError "connect ETIMEDOUT")
           {| isAuthenticated := true; userId := Some "u1" |}).
  - reflexivity.
  - intros id [->|Hid]%elem_of_cons; [by eexists|]. by apply elem_of_nil in Hid.
  - reflexivity.
Defined.

Lemma queries_refuse_unauthenticated_witness :
  search Demo.tmdbFetch (Text "alien") (Some 1)
    {| isAuthenticated := false; userId := None |}
  = Throws (AuthenticationError (message Unauthenticated))
  ∧ search Demo.tmdbFetch Malformed (Some 1)
      {| isAuthenticated := false; userId := None |}
    = Throws uriMalformed
  ∧ movie Demo.tmdbFetch "1" {| isAuthenticated := false; userId := None |}
    = Throws (AuthenticationError (message Unauthenticated))
  ∧ movies Demo.tmdbFetch ["1"] {| isAuthenticated := false; userId := None |}
    = Throws (AuthenticationError (message Unauthenticated))
  ∧ users (λ w, (Returned {| data := Some (map_to_list w).*2; errors := [];
                             statusCode := 200 |}, w))
      {| isAuthenticated := false; userId := None |} Demo.registered
    = (Throws (AuthenticationError (message Unauthenticated)), Demo.registered).
Proof.
  apply (queries_refuse_unauthenticated
           (λ w, (Returned {| data := Some (map_to_list w).*2; errors := [];
                              statusCode := 200 |}, w))
           Demo.tmdbFetch "alien" "1" (Some 1) ["1"]
           {| isAuthenticated := false; userId := None |} Demo.registered).
  reflexivity.
Defined.

(** User ["u2"] tries to delete alice and to touch her favourites. *)
Lemma user_mutations_refuse_other_users_witness :
  deleteUser Demo.usersService_deleteUser "u1"
    {| isAuthenticated := true; userId := Some "u2" |} Demo.registered
  = (Throws (AuthenticationError (message Unauthorized)), Demo.registered)
  ∧ addFavoriteMovieToUser Demo.usersService_favorite "u1" "1"
      {| isAuthenticated := true; userId := Some "u2" |} Demo.registered
    = (Throws (AuthenticationError (message Unauthorized)), Demo.registered)
  ∧ removeFavoriteMovieFromUser Demo.usersService_favorite "u1" "1"
      {| isAuthenticated := true; userId := Some "u2" |} Demo.registered
    = (Throws (AuthenticationError (message Unauthorized)), Demo.registered).
Proof.
  apply (user_mutations_refuse_other_users Demo.usersService_deleteUser
           Demo.usersService_favorite Demo.usersService_favorite "u1" "1"
           {| isAuthenticated := true; userId := Some "u2" |} Demo.registered).
  discriminate.
Defined.

(** Alice deletes herself: the payload has her record and no errors. *)
Lemma user_mutations_return_no_errors_witness :
  (deleteUser Demo.usersService_deleteUser "u1"
     {| isAuthenticated := true; userId := Some "u1" |} Demo.registered).1
  = Returned {| p_statusCode := 200; p_user := Some Demo.alice; p_jwtToken := None;
                p_refreshTokenData := None; p_errors := [] |}
  ∧ p_errors {| p_statusCode := 200; p_user := Some Demo.alice; p_jwtToken := None;
                p_refreshTokenData := None; p_errors := [] |} = [].
Proof.
  split; [reflexivity|].
  apply (user_mutations_return_no_errors string Demo.usersService_updateUser
           Demo.usersService_deleteUser Demo.usersService_favorite
           Demo.usersService_favorite "u1" "1" "new"
           {| isAuthenticated := true; userId := Some "u1" |} Demo.registered).
  right. left. reflexivity.
Defined.

(** Alice logs in at time 0 and refreshes at time 1000 with the cookie
    she got. *)
Lemma login_then_silentRefresh_witness :
  ∃ payload cookie s1 jwtToken s2,
    loginUser Demo.jwt_sign Demo.fingerprint Demo.JWT_TOKEN_EXPIRATION_IN_SECONDS
      Demo.REFRESH_TOKEN_EXPIRATION_IN_SECONDS Demo.usersService_loginUser
      "alice" "secret" 0 "R1" [] {| whitelist := ∅; blacklist := ∅ |} Demo.registered
    = (Returned payload, ([] ++ [cookie])%list, s1, Demo.registered)
    ∧ silentRefresh Demo.jwt_sign Demo.fingerprint Demo.JWT_TOKEN_EXPIRATION_IN_SECONDS
        Demo.REFRESH_TOKEN_EXPIRATION_IN_SECONDS Demo.registered
        {| cookies_refreshToken := Some (cookie_value cookie);
           headers_authorization := None |} 1000 "R2" [] s1
      = (Returned {| p_statusCode := 200; p_user := Some Demo.alice;
                     p_jwtToken := Some jwtToken; p_refreshTokenData := None;
                     p_errors := [] |},
         res_cookie "refreshToken" "R2"
           (cookieSession (Demo.REFRESH_TOKEN_EXPIRATION_IN_SECONDS * 1000)) [],
         s2).
Proof.
  apply (login_then_silentRefresh Demo.jwt_sign Demo.fingerprint
           Demo.JWT_TOKEN_EXPIRATION_IN_SECONDS Demo.REFRESH_TOKEN_EXPIRATION_IN_SECONDS
           Demo.usersService_loginUser "alice" "secret" 0 1000 "R1" "R2" [] []
           {| whitelist := ∅; blacklist := ∅ |} Demo.registered Demo.registered
           {| data := Some Demo.alice; errors := []; statusCode := 200 |}
           Demo.alice None).
  - reflexivity.
  - reflexivity.
  - reflexivity.
  - intros payload. by eexists.
  - reflexivity.
  - discriminate.
Defined.

(** An origin on another host that merely ends like a local one. *)
Lemma originAllowed_any_prefix_witness :
  regexp_test localhostPattern "http://localhost:3000" = true
  ∧ originAllowed ("https://elsewhere.example/?next=" ++ "http://localhost:3000") = true.
Proof.
  split; [reflexivity|].
  apply (originAllowed_any_prefix "https://elsewhere.example/?next="
           "http://localhost:3000").
  reflexivity.
Defined.

Lemma originAllowed_examples :
  map originAllowed
    ["http://localhost:3000"; "https://app.localhost"; "https://restflix.netlify.app";
     "https://restflix.netlify.app/"; "http://localhost:123456"; "https://example.org"]
  = [true; true; true; false; false; false].
Proof. vm_compute. reflexivity. Qed.

Lemma field_resolver_examples :
  posterUrl {| tm_id := 1; backdrop_path := None; poster_path := Some "/alien.jpg";
               tm_kind := SimpleMovie [878; 27] |}
    {| imageBaseUrls := Some {| backdropBaseUrl := "https://image.example/w1280";
                                posterBaseUrl := "https://image.example/w500" |};
       genreLookupTable := Some {[ 878 := {| genre_id := 878; genre_name := "Science Fiction" |} ]} |}
  = "https://image.example/w500/alien.jpg"
  ∧ genresField {| tm_id := 1; backdrop_path := None; poster_path := Some "/alien.jpg";
                   tm_kind := SimpleMovie [878; 27] |}
      {| imageBaseUrls := None;
         genreLookupTable := Some {[ 878 := {| genre_id := 878; genre_name := "Science Fiction" |} ]} |}
    = [Some {| genre_id := 878; genre_name := "Science Fiction" |}; None].
Proof. split; reflexivity. Qed.
